(** * Rembrandt MAP backend: chunking, vector indexing and retrieval

    A shallow embedding of [backend/services/rag_service.py],
    [backend/services/chroma_service.py], [backend/routes/documents.py] and
    [backend/routes/health.py], with the properties of the indexing and
    retrieval pipeline proved about it. *)

From Stdlib Require Import ZArith QArith Lqa Ascii String DecimalString DecimalNat Lia.
From stdpp Require Import gmap strings list.

Local Open Scope Z_scope.

(** ** Python strings

    A [str] is a sequence of Unicode code points.  Source literals are ASCII
    and are written [py "..."]. *)

Module PyStr.

Definition py (s : string) : list Z :=
  (λ a, Z.of_N (N_of_ascii a)) <$> list_ascii_of_string s.

(** [str.isspace] for a single code point. *)
Definition whitespace : list Z :=
  [9; 10; 11; 12; 13; 28; 29; 30; 31; 32; 133; 160; 5760;
   8192; 8193; 8194; 8195; 8196; 8197; 8198; 8199; 8200; 8201; 8202;
   8232; 8233; 8239; 8287; 12288].

Definition isspace (c : Z) : bool := bool_decide (c ∈ whitespace).

Fixpoint lstrip (s : list Z) : list Z :=
  match s with
  | c :: s' => if isspace c then lstrip s' else s
  | [] => []
  end.

Definition rstrip (s : list Z) : list Z := reverse (lstrip (reverse s)).

(** [s.strip()] *)
Definition strip (s : list Z) : list Z := rstrip (lstrip s).

(** [sep.join(parts)] *)
Fixpoint join (sep : list Z) (parts : list (list Z)) : list Z :=
  match parts with
  | [] => []
  | [p] => p
  | p :: ps => p ++ sep ++ join sep ps
  end.

(** [s.split(sep)] for a one-character separator: always at least one
    segment, empty segments kept. *)
Fixpoint split (sep : Z) (s : list Z) : list (list Z) :=
  match s with
  | [] => [[]]
  | c :: s' =>
      if decide (c = sep) then [] :: split sep s'
      else match split sep s' with
           | w :: ws => (c :: w) :: ws
           | [] => [[c]]
           end
  end.

(** [str(n)] for a non-negative [int]. *)
Definition str_of_nat (n : nat) : list Z :=
  py (NilEmpty.string_of_uint (Nat.to_uint n)).

(** [s.encode("utf-8")]: [None] stands for [UnicodeEncodeError], raised on a
    lone surrogate; code points past U+10FFFF do not occur in a [str]. *)
Definition utf8_char (c : Z) : option (list Z) :=
  if decide (c < 0) then None
  else if decide (c < 0x80) then Some [c]
  else if decide (c < 0x800) then Some [0xC0 + c / 64; 0x80 + c mod 64]
  else if decide (0xD800 ≤ c ≤ 0xDFFF) then None
  else if decide (c < 0x10000) then
    Some [0xE0 + c / 4096; 0x80 + (c / 64) mod 64; 0x80 + c mod 64]
  else if decide (c < 0x110000) then
    Some [0xF0 + c / 262144; 0x80 + (c / 4096) mod 64;
          0x80 + (c / 64) mod 64; 0x80 + c mod 64]
  else None.

Fixpoint encode_utf8 (s : list Z) : option (list Z) :=
  match s with
  | [] => Some []
  | c :: s' =>
      match utf8_char c, encode_utf8 s' with
      | Some bs, Some rest => Some (bs ++ rest)
      | _, _ => None
      end
  end.

End PyStr.
Export PyStr.

(** ** MD5 (RFC 1321), as computed by [hashlib.md5(...).hexdigest()]

    Words are 32-bit integers in [Z]; every addition wraps modulo [2^32]. *)

Module MD5.

Definition add32 (x y : Z) : Z := (x + y) mod 2 ^ 32.
Definition not32 (x : Z) : Z := Z.lxor x 0xFFFFFFFF.
Definition rotl32 (x c : Z) : Z :=
  Z.lor (Z.shiftl x c mod 2 ^ 32) (Z.shiftr x (32 - c)).

Definition shifts : list Z :=
  [7; 12; 17; 22; 7; 12; 17; 22; 7; 12; 17; 22; 7; 12; 17; 22;
   5; 9; 14; 20; 5; 9; 14; 20; 5; 9; 14; 20; 5; 9; 14; 20;
   4; 11; 16; 23; 4; 11; 16; 23; 4; 11; 16; 23; 4; 11; 16; 23;
   6; 10; 15; 21; 6; 10; 15; 21; 6; 10; 15; 21; 6; 10; 15; 21].

(** [K[i] = floor(2^32 * |sin(i + 1)|)] *)
Definition K : list Z :=
  [0xd76aa478; 0xe8c7b756; 0x242070db; 0xc1bdceee;
   0xf57c0faf; 0x4787c62a; 0xa8304613; 0xfd469501;
   0x698098d8; 0x8b44f7af; 0xffff5bb1; 0x895cd7be;
   0x6b901122; 0xfd987193; 0xa679438e; 0x49b40821;
   0xf61e2562; 0xc040b340; 0x265e5a51; 0xe9b6c7aa;
   0xd62f105d; 0x02441453; 0xd8a1e681; 0xe7d3fbc8;
   0x21e1cde6; 0xc33707d6; 0xf4d50d87; 0x455a14ed;
   0xa9e3e905; 0xfcefa3f8; 0x676f02d9; 0x8d2a4c8a;
   0xfffa3942; 0x8771f681; 0x6d9d6122; 0xfde5380c;
   0xa4beea44; 0x4bdecfa9; 0xf6bb4b60; 0xbebfbc70;
   0x289b7ec6; 0xeaa127fa; 0xd4ef3085; 0x04881d05;
   0xd9d4d039; 0xe6db99e5; 0x1fa27cf8; 0xc4ac5665;
   0xf4292244; 0x432aff97; 0xab9423a7; 0xfc93a039;
   0x655b59c3; 0x8f0ccc92; 0xffeff47d; 0x85845dd1;
   0x6fa87e4f; 0xfe2ce6e0; 0xa3014314; 0x4e0811a1;
   0xf7537e82; 0xbd3af235; 0x2ad7d2bb; 0xeb86d391].

(** [n] bytes of [x], least significant first. *)
Fixpoint le_bytes (n : nat) (x : Z) : list Z :=
  match n with
  | O => []
  | S n' => x mod 256 :: le_bytes n' (x / 256)
  end.

Definition le_word (bs : list Z) : Z := foldr (λ b acc, b + 256 * acc) 0 bs.

(** Padding: a single [0x80], zeros up to 56 modulo 64, then the bit length
    as a 64-bit little-endian integer. *)
Definition pad (msg : list Z) : list Z :=
  let len := Z.of_nat (length msg) in
  msg ++ [0x80] ++ replicate (Z.to_nat ((55 - len) mod 64)) 0
      ++ le_bytes 8 ((8 * len) mod 2 ^ 64).

Fixpoint groups (fuel n : nat) (l : list Z) : list (list Z) :=
  match fuel with
  | O => []
  | S fuel' =>
      match l with
      | [] => []
      | _ => take n l :: groups fuel' n (drop n l)
      end
  end.

Definition step (M : list Z) (st : Z * Z * Z * Z) (i : nat) : Z * Z * Z * Z :=
  let '(a, b, c, d) := st in
  let iz := Z.of_nat i in
  let '(f, g) :=
    if decide (iz < 16) then
      (Z.lor (Z.land b c) (Z.land (not32 b) d), iz)
    else if decide (iz < 32) then
      (Z.lor (Z.land d b) (Z.land (not32 d) c), (5 * iz + 1) mod 16)
    else if decide (iz < 48) then
      (Z.lxor (Z.lxor b c) d, (3 * iz + 5) mod 16)
    else
      (Z.lxor c (Z.lor b (not32 d)), (7 * iz) mod 16) in
  let f' := add32 (add32 (add32 f a) (nth i K 0)) (nth (Z.to_nat g) M 0) in
  (d, add32 b (rotl32 f' (nth i shifts 0)), b, c).

Definition block (st : Z * Z * Z * Z) (bytes : list Z) : Z * Z * Z * Z :=
  let M := le_word <$> groups 16 4 bytes in
  let '(a0, b0, c0, d0) := st in
  let '(a, b, c, d) := foldl (step M) st (seq 0 64) in
  (add32 a0 a, add32 b0 b, add32 c0 c, add32 d0 d).

Definition init : Z * Z * Z * Z :=
  (0x67452301, 0xefcdab89, 0x98badcfe, 0x10325476).

Definition digest (msg : list Z) : list Z :=
  let p := pad msg in
  let '(a, b, c, d) := foldl block init (groups (length p) 64 p) in
  le_bytes 4 a ++ le_bytes 4 b ++ le_bytes 4 c ++ le_bytes 4 d.

Definition hex_digit (n : Z) : Z :=
  if decide (n < 10) then 48 + n else 87 + n.

Definition hexdigest (msg : list Z) : list Z :=
  digest msg ≫= λ b, [hex_digit (b / 16); hex_digit (b mod 16)].

End MD5.

(** ** Python values, dictionaries and exceptions *)

(** A [float] is modelled by the rational it stands for: arithmetic on
    scores is exact, rounding is left out. *)
Inductive pyval :=
| VNone
| VStr (s : list Z)
| VFloat (x : Q)
| VList (l : list (list Z)).

(** Python's [==] on the values above. *)
Definition pyval_eqb (a b : pyval) : bool :=
  match a, b with
  | VNone, VNone => true
  | VStr s, VStr t => bool_decide (s = t)
  | VFloat x, VFloat y => Qeq_bool x y
  | VList l, VList k => bool_decide (l = k)
  | _, _ => false
  end.

(** Every exception below is a subclass of Python's [Exception].
    [Fault] is whatever a third-party call raises when the store or the
    embedding model cannot be reached (disk, permission, corruption). *)
Inductive exn :=
| AssertionError
| KeyError (key : string)
| UnicodeEncodeError
| ValidationError (field : string)
| Fault (code : nat)
| CollectionNotFound
| InvalidNResults (n : Z)
| InvalidRecord
| DuplicateIDError
| TypeError
| AttributeError
| HTTPException (status : Z) (detail : exn).

Inductive outcome (A : Type) :=
| Ok (a : A)
| Raise (e : exn).
Arguments Ok {A} a.
Arguments Raise {A} e.

Definition obind {A B} (o : outcome A) (k : A → outcome B) : outcome B :=
  match o with
  | Ok a => k a
  | Raise e => Raise e
  end.

Notation "'let?' x := o 'in' k" := (obind o (λ x, k))
  (at level 10, x name, o at level 100, k at level 200).

(** The results of a list of computations, or the first exception. *)
Fixpoint sequence {A} (l : list (outcome A)) : outcome (list A) :=
  match l with
  | [] => Ok []
  | o :: l' =>
      let? a := o in
      let? rest := sequence l' in
      Ok (a :: rest)
  end.

(** [d[key]] *)
Definition getitem (d : gmap string pyval) (key : string) : outcome pyval :=
  match d !! key with
  | Some v => Ok v
  | None => Raise (KeyError key)
  end.

(** ** The world: the service object, the persistent store, pending faults *)

Inductive Client := PersistentClientHandle.
Inductive EmbeddingFunction := SentenceTransformer (model_name : string).
Inductive Collection := CollectionHandle (name : string).

(** One stored record: the document text and its scalar metadata. *)
Record entry := Entry { document : list Z; metadata : gmap string pyval }.

(** [_client] and [_collection] are the two attributes of [ChromaService].
    [stored] is the collection named [settings.collection_name] in the
    persistent store, keyed by chunk id; [None] when it does not exist.
    [faults] says, for each coming third-party call in turn, whether it
    raises; past the end of the list no call faults. *)
Record World := MkWorld {
  _client : option Client;
  _collection : option Collection;
  stored : option (gmap (list Z) entry);
  faults : list (option exn)
}.

Definition set_client (c : option Client) (w : World) : World :=
  MkWorld c (_collection w) (stored w) (faults w).
Definition set_collection (c : option Collection) (w : World) : World :=
  MkWorld (_client w) c (stored w) (faults w).
Definition set_stored (s : option (gmap (list Z) entry)) (w : World) : World :=
  MkWorld (_client w) (_collection w) s (faults w).
Definition set_faults (f : list (option exn)) (w : World) : World :=
  MkWorld (_client w) (_collection w) (stored w) f.

(** A computation may read and write the world, and return or raise; what
    it wrote before raising stays written. *)
Definition M (A : Type) : Type := World → outcome A * World.

Definition ret {A} (a : A) : M A := λ w, (Ok a, w).
Definition raise {A} (e : exn) : M A := λ w, (Raise e, w).
Definition bind {A B} (m : M A) (k : A → M B) : M B :=
  λ w, match m w with
       | (Ok a, w') => k a w'
       | (Raise e, w') => (Raise e, w')
       end.
Definition lift {A} (o : outcome A) : M A := λ w, (o, w).

(** [try: body except Exception as e: handler(e)] *)
Definition try_except {A} (body : M A) (handler : exn → M A) : M A :=
  λ w, match body w with
       | (Ok a, w') => (Ok a, w')
       | (Raise e, w') => handler e w'
       end.

Notation "'let*' x := m 'in' k" := (bind m (λ x, k))
  (at level 10, x name, m at level 100, k at level 200).

Definition get {A} (f : World → A) : M A := λ w, (Ok (f w), w).
Definition modify (f : World → World) : M unit := λ w, (Ok tt, f w).

(** [assert x is not None] *)
Definition assert_not_None {A} (x : option A) : M A :=
  match x with
  | Some a => ret a
  | None => raise AssertionError
  end.

(** Entry into third-party code: raises the fault scheduled for this call,
    if there is one. *)
Definition external_call : M unit :=
  λ w, match faults w with
       | Some e :: rest => (Raise e, set_faults rest w)
       | None :: rest => (Ok tt, set_faults rest w)
       | [] => (Ok tt, w)
       end.

Module settings.
Definition collection_name : string := "vault_documents".
Definition chunk_size : Z := 512.
Definition chunk_overlap : Z := 64.
Definition top_k : Z := 3.
End settings.

(** ** The vector store (chromadb), as far as the service uses it

    Each operation is a third-party call and may fault before it has any
    effect.  [upsert] writes or overwrites by id, and refuses a batch that
    names an id twice or holds an empty metadata dict; [query] returns the
    [n_results] nearest stored documents, nearest first. *)

Record QueryResult := MkQueryResult {
  documents : list (list Z);
  metadatas : list (gmap string pyval);
  distances : list Q
}.

Definition the_collection : M (gmap (list Z) entry) :=
  let* s := get stored in
  match s with
  | Some m => ret m
  | None => raise CollectionNotFound
  end.

Definition PersistentClient : M Client :=
  let* _ := external_call in ret PersistentClientHandle.

Definition SentenceTransformerEmbeddingFunction (model_name : string)
  : M EmbeddingFunction :=
  let* _ := external_call in ret (SentenceTransformer model_name).

Definition get_or_create_collection (name : string) (ef : EmbeddingFunction)
  : M Collection :=
  let* _ := external_call in
  let* s := get stored in
  let* _ := match s with
            | Some _ => ret tt
            | None => modify (set_stored (Some ∅))
            end in
  ret (CollectionHandle name).

Definition delete_collection (name : string) : M unit :=
  let* _ := external_call in
  let* _ := the_collection in
  modify (set_stored None).

(** The store accepts only scalar metadata values. *)
Definition scalar (v : pyval) : bool :=
  match v with
  | VStr _ | VFloat _ => true
  | VNone | VList _ => false
  end.

(** A metadata dict must have at least one key. *)
Definition valid_metadata (m : gmap string pyval) : bool :=
  negb (size m =? 0)%nat && bool_decide (map_Forall (λ _ v, scalar v = true) m).

Definition as_str (v : pyval) : outcome (list Z) :=
  match v with
  | VStr s => Ok s
  | _ => Raise InvalidRecord
  end.

Fixpoint zip_records (ids : list (list Z)) (docs : list pyval)
    (metas : list (gmap string pyval)) : outcome (list (list Z * entry)) :=
  match ids, docs, metas with
  | i :: ids', d :: docs', m :: metas' =>
      let? d' := as_str d in
      if valid_metadata m then
        let? rest := zip_records ids' docs' metas' in
        Ok ((i, Entry d' m) :: rest)
      else Raise InvalidRecord
  | [], [], [] => Ok []
  | _, _, _ => Raise InvalidRecord
  end.

(** The record set of one [upsert]: the ids are validated first (strings,
    no id twice in the batch), then the documents and the metadata. *)
Definition records (ids docs : list pyval) (metas : list (gmap string pyval))
  : outcome (list (list Z * entry)) :=
  let? ids' := sequence (as_str <$> ids) in
  if bool_decide (NoDup ids') then zip_records ids' docs metas
  else Raise DuplicateIDError.

Definition write_all (rs : list (list Z * entry)) (m : gmap (list Z) entry)
  : gmap (list Z) entry :=
  foldl (λ acc r, <[r.1 := r.2]> acc) m rs.

Definition collection_upsert (ids docs : list pyval)
    (metas : list (gmap string pyval)) : M unit :=
  let* _ := external_call in
  let* m := the_collection in
  let* rs := lift (records ids docs metas) in
  modify (set_stored (Some (write_all rs m))).

Definition collection_count : M Z :=
  let* _ := external_call in
  let* m := the_collection in
  ret (Z.of_nat (size m)).

Definition collection_get_metadatas : M (list (gmap string pyval)) :=
  let* _ := external_call in
  let* m := the_collection in
  ret ((λ r, metadata r.2) <$> map_to_list m).

Fixpoint insert_nearest (x : entry * Q) (l : list (entry * Q)) : list (entry * Q) :=
  match l with
  | [] => [x]
  | y :: l' => if Qle_bool x.2 y.2 then x :: l else y :: insert_nearest x l'
  end.

Definition nearest_first (l : list (entry * Q)) : list (entry * Q) :=
  foldr insert_nearest [] l.

(** ** [schemas.py] *)

Module DocumentChunk.
Record t := Make {
  doc_id : list Z;
  filename : list Z;
  section_id : option (list Z);
  heading : option (list Z);
  speaker : list Z;
  content : list Z;
  tags : list (list Z)
}.
End DocumentChunk.

(** A document as a dict: each key may be absent ([None] at the outer
    level); the optional fields may also be present with the value [None]. *)
Module DocDict.
Record t := Make {
  doc_id : option (list Z);
  filename : option (list Z);
  section_id : option (option (list Z));
  heading : option (option (list Z));
  speaker : option (list Z);
  content : option (list Z);
  tags : option (list (list Z))
}.
End DocDict.

Module SearchResult.
Record t := Make {
  doc_id : list Z;
  filename : list Z;
  section_id : option (list Z);
  heading : option (list Z);
  speaker : list Z;
  content : list Z;
  score : Q;
  tags : list (list Z)
}.
End SearchResult.

Record SearchRequest := MkSearchRequest { query : list Z; top_k : Z }.
Record SearchResponse := MkSearchResponse {
  results : list SearchResult.t;
  response_query : list Z
}.
Record IndexResponse := MkIndexResponse { indexed : nat }.
Record ClearResponse := MkClearResponse { cleared : bool }.
Record StatsResponse := MkStatsResponse {
  doc_count : Z;
  chunk_count : Z;
  stats_collection_name : string
}.
Record HealthResponse := MkHealthResponse {
  status : string;
  version : string;
  chroma_ready : bool
}.

(** [doc.model_dump()]: every field becomes a key. *)
Definition model_dump (doc : DocumentChunk.t) : DocDict.t :=
  DocDict.Make (Some (DocumentChunk.doc_id doc))
               (Some (DocumentChunk.filename doc))
               (Some (DocumentChunk.section_id doc))
               (Some (DocumentChunk.heading doc))
               (Some (DocumentChunk.speaker doc))
               (Some (DocumentChunk.content doc))
               (Some (DocumentChunk.tags doc)).

(** What [prepare_chunks] accepts: Pydantic models, or dicts with the same
    fields. *)
Inductive section_doc :=
| Model (doc : DocumentChunk.t)
| Plain (d : DocDict.t).

Section Backend.

(** Cosine distance between the embeddings of a query and of a document. *)
Variable distance : list Z → list Z → Q.

Definition neighbours (q : list Z) (n : nat) (m : gmap (list Z) entry)
  : list (entry * Q) :=
  take n (nearest_first ((λ r, (r.2, distance q (document r.2))) <$> map_to_list m)).

Definition collection_query (query_text : list Z) (n_results : Z) : M QueryResult :=
  let* _ := external_call in
  let* m := the_collection in
  if decide (n_results ≤ 0 ∨ Z.of_nat (size m) < n_results) then
    raise (InvalidNResults n_results)
  else
    let found := neighbours query_text (Z.to_nat n_results) m in
    ret (MkQueryResult ((λ r, document r.1) <$> found)
                       ((λ r, metadata r.1) <$> found)
                       (snd <$> found)).

(** ** [chroma_service.py]: class [ChromaService] *)

(** Initialise ChromaDB client and collection on first use. *)
Definition _ensure_ready : M unit :=
  let* c := get _client in
  match c with
  | Some _ => ret tt
  | None =>
      let* client := PersistentClient in
      let* _ := modify (set_client (Some client)) in
      let* ef := SentenceTransformerEmbeddingFunction "all-MiniLM-L6-v2" in
      let* col := get_or_create_collection settings.collection_name ef in
      modify (set_collection (Some col))
  end.

Definition add_chunks (chunks : list (gmap string pyval)) : M unit :=
  match chunks with
  | [] => ret tt
  | _ =>
      let* _ := _ensure_ready in
      let* col := get _collection in
      let* _ := assert_not_None col in
      let* ids := lift (sequence ((λ c, getitem c "id") <$> chunks)) in
      let* documents := lift (sequence ((λ c, getitem c "content") <$> chunks)) in
      let metadatas := (λ c, delete "id" (delete "content" c)) <$> chunks in
      collection_upsert ids documents metadatas
  end.

(** ChromaDB cosine distance: 0 = identical, 2 = opposite. *)
Definition score_of_distance (dist : Q) : Q := (1 - dist / 2)%Q.

(** The same expression when each operation is the exact one followed by
    a rounding [rnd] to the nearest [float]. *)
Definition score_of_distance_rounded (rnd : Q → Q) (dist : Q) : Q :=
  rnd (1 - rnd (dist / 2))%Q.

(** [{"content": doc, "score": score, **meta}] *)
Definition result_row (doc : list Z) (meta : gmap string pyval) (dist : Q)
  : gmap string pyval :=
  meta ∪ <["content" := VStr doc]>
           (<["score" := VFloat (score_of_distance dist)]> ∅).

Definition search (query : list Z) (n_results : Z) : M (list (gmap string pyval)) :=
  let* _ := _ensure_ready in
  let* col := get _collection in
  let* _ := assert_not_None col in
  let* count := collection_count in
  if decide (count = 0) then ret []
  else
    let n_results := Z.min n_results count in
    let* res := collection_query query n_results in
    ret ((λ r, result_row r.1.1 r.1.2 r.2)
           <$> zip (zip (documents res) (metadatas res)) (distances res)).

Definition clear : M unit :=
  let* _ := _ensure_ready in
  let* client := get _client in
  let* _ := assert_not_None client in
  let* _ := delete_collection settings.collection_name in
  modify (set_collection None).

Definition count : M Z :=
  let* _ := _ensure_ready in
  let* col := get _collection in
  let* _ := assert_not_None col in
  collection_count.

Fixpoint distinct (l : list pyval) : list pyval :=
  match l with
  | [] => []
  | x :: l' => if existsb (pyval_eqb x) l' then distinct l' else x :: distinct l'
  end.

Definition hashable (v : pyval) : bool :=
  match v with
  | VList _ => false
  | _ => true
  end.

Definition unique_doc_count : M Z :=
  let* _ := _ensure_ready in
  let* col := get _collection in
  let* _ := assert_not_None col in
  let* count := collection_count in
  if decide (count = 0) then ret 0
  else
    let* metas := collection_get_metadatas in
    let doc_ids := (λ m : gmap string pyval, default (VStr []) (m !! "doc_id")) <$> metas in
    if forallb hashable doc_ids then ret (Z.of_nat (length (distinct doc_ids)))
    else raise TypeError.

Definition is_ready : M bool :=
  try_except
    (let* _ := _ensure_ready in
     let* col := get _collection in
     ret (match col with Some _ => true | None => false end))
    (λ _, ret false).

(** [doc.model_dump() if hasattr(doc, "model_dump") else dict(doc)] *)
Definition as_dict (doc : section_doc) : DocDict.t :=
  match doc with
  | Model m => model_dump m
  | Plain d => d
  end.

(** ** [rag_service.py] *)

(** [f"{doc_id}::{section_id}::{idx}"] *)
Definition chunk_key (doc_id section_id : list Z) (idx : nat) : list Z :=
  doc_id ++ py "::" ++ section_id ++ py "::" ++ str_of_nat idx.

Definition _chunk_id (doc_id section_id : list Z) (idx : nat) : outcome (list Z) :=
  let raw := chunk_key doc_id section_id idx in
  match encode_utf8 raw with
  | Some bytes => Ok (MD5.hexdigest bytes)
  | None => Raise UnicodeEncodeError
  end.

(** [d[key]] on a document dict. *)
Definition required {A} (key : string) (field : option A) : outcome A :=
  match field with
  | Some v => Ok v
  | None => Raise (KeyError key)
  end.

(** [",".join(tags)] *)
Definition tags_join (tags : list (list Z)) : list Z := join (py ",") tags.

(** [RecursiveCharacterTextSplitter(chunk_size, chunk_overlap,
    separators).split_text], from langchain. *)
Variable split_text : list Z → list (list Z).

(** [d.get("section_id") or d.get("doc_id", "")] *)
Definition effective_section_id (d : DocDict.t) : list Z :=
  match DocDict.section_id d with
  | Some (Some (c :: s)) => c :: s
  | _ => default [] (DocDict.doc_id d)
  end.

(** The dict appended for the sub-chunk [text] at position [idx]. *)
Definition chunk_dict (d : DocDict.t) (section_id : list Z) (idx : nat)
    (text : list Z) : outcome (gmap string pyval) :=
  let? doc_id := required "doc_id" (DocDict.doc_id d) in
  let? id := _chunk_id doc_id section_id idx in
  let? filename := required "filename" (DocDict.filename d) in
  Ok (list_to_map
        [("id", VStr id);
         ("content", VStr text);
         ("doc_id", VStr doc_id);
         ("filename", VStr filename);
         ("section_id", VStr section_id);
         ("heading", VStr (match DocDict.heading d with
                           | Some (Some h) => h
                           | _ => []
                           end));
         ("speaker", VStr (default (py "unknown") (DocDict.speaker d)));
         ("tags", VStr (tags_join (default [] (DocDict.tags d))))]).

(** One turn of the loop over [documents]. *)
Definition chunks_of_document (doc : section_doc) : outcome (list (gmap string pyval)) :=
  let d := as_dict doc in
  let content := strip (default [] (DocDict.content d)) in
  match content with
  | [] => Ok []
  | _ =>
      let section_id := effective_section_id d in
      let sub_chunks := split_text content in
      sequence (imap (chunk_dict d section_id) sub_chunks)
  end.

Fixpoint prepare_chunks (documents : list section_doc)
  : outcome (list (gmap string pyval)) :=
  match documents with
  | [] => Ok []
  | doc :: rest =>
      let? out := chunks_of_document doc in
      let? more := prepare_chunks rest in
      Ok (out ++ more)
  end.

(** ** [routes/documents.py] and [routes/health.py] *)

(** [try: ... except Exception as e: raise HTTPException(500, str(e))] *)
Definition or_500 {A} (body : M A) : M A :=
  try_except body (λ e, raise (HTTPException 500 e)).

Definition index_documents (request_documents : list DocumentChunk.t)
  : M IndexResponse :=
  or_500
    (let* chunks := lift (prepare_chunks (Model <$> request_documents)) in
     let* _ := add_chunks chunks in
     ret (MkIndexResponse (length chunks))).

Definition clear_documents : M ClearResponse :=
  or_500 (let* _ := clear in ret (MkClearResponse true)).

(** [[t for t in s.split(",") if t]] *)
Definition tags_split (s : list Z) : list (list Z) :=
  filter (λ t, t ≠ []) (split 44 s).

Definition truthy (v : pyval) : bool :=
  match v with
  | VNone => false
  | VStr s => bool_decide (s ≠ [])
  | VFloat x => negb (Qeq_bool x 0)
  | VList l => bool_decide (l ≠ [])
  end.

(** Validation of a [str] and of an [Optional[str]] field. *)
Definition valid_str (field : string) (v : pyval) : outcome (list Z) :=
  match v with
  | VStr s => Ok s
  | _ => Raise (ValidationError field)
  end.

Definition valid_opt_str (field : string) (v : option pyval)
  : outcome (option (list Z)) :=
  match v with
  | None | Some VNone => Ok None
  | Some (VStr s) => Ok (Some s)
  | Some _ => Raise (ValidationError field)
  end.

(** The number a string stands for, as Pydantic reads it into a [float]
    field; [None] when it is not one. *)
Variable float_of_str : list Z → option Q.

(** Validation of a [float] field: a number, or a string that reads as
    one. *)
Definition valid_float (field : string) (v : pyval) : outcome Q :=
  match v with
  | VFloat x => Ok x
  | VStr s =>
      match float_of_str s with
      | Some x => Ok x
      | None => Raise (ValidationError field)
      end
  | _ => Raise (ValidationError field)
  end.

(** [SearchResult(doc_id=r["doc_id"], ...)] for one raw result. *)
Definition to_search_result (r : gmap string pyval) : outcome SearchResult.t :=
  let? doc_id := getitem r "doc_id" in
  let? filename := getitem r "filename" in
  let section_id := r !! "section_id" in
  let heading := match r !! "heading" with
                 | Some v => if truthy v then Some v else None
                 | None => None
                 end in
  let speaker := default (VStr (py "unknown")) (r !! "speaker") in
  let? content := getitem r "content" in
  let? score := getitem r "score" in
  let? tags := match default (VStr []) (r !! "tags") with
               | VStr s => Ok (tags_split s)
               | _ => Raise AttributeError
               end in
  let? doc_id := valid_str "doc_id" doc_id in
  let? filename := valid_str "filename" filename in
  let? section_id := valid_opt_str "section_id" section_id in
  let? heading := valid_opt_str "heading" heading in
  let? speaker := valid_str "speaker" speaker in
  let? content := valid_str "content" content in
  let? score := valid_float "score" score in
  Ok (SearchResult.Make doc_id filename section_id heading speaker content
                        score tags).

Definition search_documents (request : SearchRequest) : M SearchResponse :=
  or_500
    (let* raw := search (query request) (top_k request) in
     let* results := lift (sequence (to_search_result <$> raw)) in
     ret (MkSearchResponse results (query request))).

Definition get_stats : M StatsResponse :=
  or_500
    (let* docs := unique_doc_count in
     let* chunks := count in
     ret (MkStatsResponse docs chunks "vault_documents")).

Definition VERSION : string := "0.1.0".

Definition health_check : M HealthResponse :=
  let* ready := is_ready in
  ret (MkHealthResponse "ok" VERSION ready).

(** ** A process lifetime: the calls made on the one service object *)

Inductive call :=
| AddChunks (chunks : list (gmap string pyval))
| Search (query : list Z) (n_results : Z)
| Clear
| Count
| UniqueDocCount
| IsReady
| IndexDocuments (docs : list DocumentChunk.t)
| SearchDocuments (request : SearchRequest)
| ClearDocuments
| GetStats
| HealthCheck.

(** The world a call leaves behind, whether it returned or raised. *)
Definition after (c : call) (w : World) : World :=
  match c with
  | AddChunks chunks => (add_chunks chunks w).2
  | Search q n => (search q n w).2
  | Clear => (clear w).2
  | Count => (count w).2
  | UniqueDocCount => (unique_doc_count w).2
  | IsReady => (is_ready w).2
  | IndexDocuments docs => (index_documents docs w).2
  | SearchDocuments request => (search_documents request w).2
  | ClearDocuments => (clear_documents w).2
  | GetStats => (get_stats w).2
  | HealthCheck => (health_check w).2
  end.

Definition after_all (calls : list call) (w : World) : World :=
  foldl (λ w c, after c w) w calls.

End Backend.

(** The state [clear] leaves the service in: a client, no collection. *)
Definition dropped (w : World) : Prop :=
  is_Some (_client w) ∧ _collection w = None.

(** ** Instances of the third-party functions, for running the model

    The splitter on content that fits in one chunk returns it whole; the
    distance is 0 between equal texts and 1 between different ones. *)

Definition one_piece (text : list Z) : list (list Z) := [text].

Definition same_text_distance (q doc : list Z) : Q :=
  if bool_decide (q = doc) then 0%Q else 1%Q.

(** A reader of numeric strings that knows unsigned whole numbers only. *)
Definition whole_number (s : list Z) : option Q :=
  match s with
  | [] => None
  | _ =>
      if forallb (λ c, (48 <=? c) && (c <=? 57)) s
      then Some (inject_Z (foldl (λ acc c, 10 * acc + (c - 48)) 0 s))
      else None
  end.

(** A process that has not touched the store, which holds no collection
    and is reachable. *)
Definition fresh_world : World := MkWorld None None None [].

(** Two sections, and the world after indexing them in a new process. *)
Definition two_sections : list DocumentChunk.t :=
  [DocumentChunk.Make (py "d1") (py "a.md") (Some (py "d1_s1")) (Some (py "H"))
     (py "art_director") (py "  hello world ") [py "alpha"; py "beta"];
   DocumentChunk.Make (py "d2") (py "b.md") None None (py "prog_director")
     (py "other text") []].

Definition indexed_world : World :=
  Eval vm_compute in (index_documents one_piece two_sections fresh_world).2.

(** The world after clearing that store. *)
Definition cleared_world : World :=
  Eval vm_compute in (clear indexed_world).2.

Definition two_chunks : list (gmap string pyval) :=
  Eval vm_compute in
    match prepare_chunks one_piece (Model <$> two_sections) with
    | Ok chunks => chunks
    | Raise _ => []
    end.

(** Two sections of different documents whose keys [doc_id::section_id::0]
    are the same string, and their chunks. *)
Definition colliding_sections : list DocumentChunk.t :=
  [DocumentChunk.Make (py "a::b") (py "x.md") (Some (py "c")) None
     (py "art_director") (py "first text") [];
   DocumentChunk.Make (py "a") (py "y.md") (Some (py "b::c")) None
     (py "art_director") (py "second text") []].

Definition colliding_chunks : list (gmap string pyval) :=
  Eval vm_compute in
    match prepare_chunks one_piece (Model <$> colliding_sections) with
    | Ok chunks => chunks
    | Raise _ => []
    end.

(** A dict that leaves out the speaker and the tags and has a [None]
    heading and an empty section id, and the chunk assembled from it. *)
Definition sparse_document : section_doc :=
  Plain (DocDict.Make (Some (py "d1")) (Some (py "a.md")) (Some (Some []))
           (Some None) None (Some (py "some text")) None).

Definition sparse_chunk : gmap string pyval :=
  Eval vm_compute in
    match prepare_chunks one_piece [sparse_document] with
    | Ok [c] => c
    | _ => ∅
    end.

(** The service can reach the store, and the collection it opens, or will
    open on first use, holds exactly [m]. *)
Definition serving (m : gmap (list Z) entry) (w : World) : Prop :=
  faults w = []
  ∧ ((_client w = None ∧ default ∅ (stored w) = m)
     ∨ (is_Some (_client w) ∧ is_Some (_collection w) ∧ stored w = Some m)).

(** The keys of a chunk that are stored as metadata. *)
Definition metadata_fields : list string :=
  ["doc_id"; "filename"; "section_id"; "heading"; "speaker"; "tags"].

(** A document whose content is empty, absent or whitespace only. *)
Definition blank (doc : section_doc) : Prop :=
  Forall (λ c, isspace c = true) (default [] (DocDict.content (as_dict doc))).

(** A chunk whose metadata has a key named "score", holding a numeric
    string, and the world after adding it in a new process. *)
Definition shadowing_chunk : gmap string pyval :=
  list_to_map
    [("id", VStr (py "x")); ("content", VStr (py "some text"));
     ("doc_id", VStr (py "d1")); ("filename", VStr (py "a.md"));
     ("score", VStr (py "7"))].

Definition shadowed_world : World :=
  Eval vm_compute in (add_chunks [shadowing_chunk] fresh_world).2.

(** A splitter that cuts at every space, a section of two words, and three
    documents of which the second is blank, with their chunks. *)
Definition words (text : list Z) : list (list Z) := split 32 text.

Definition two_words : section_doc :=
  Model (DocumentChunk.Make (py "d1") (py "a.md") (Some (py "d1_s1"))
           (Some (py "H")) (py "art_director") (py "  hello world ") []).

Definition word_chunks : list (gmap string pyval) :=
  Eval vm_compute in
    match chunks_of_document words two_words with
    | Ok chunks => chunks
    | Raise _ => []
    end.

Definition mixed_documents : list section_doc :=
  [two_words;
   Model (DocumentChunk.Make (py "d2") (py "b.md") None None (py "art_director")
            (py "   ") []);
   sparse_document].

Definition mixed_chunks : list (gmap string pyval) :=
  Eval vm_compute in
    match prepare_chunks words mixed_documents with
    | Ok chunks => chunks
    | Raise _ => []
    end.

(** ** Predicates used to state further properties *)

(** A string that [encode("utf-8")] accepts. *)
Definition encodable (s : list Z) : Prop := is_Some (encode_utf8 s).

(** A lower-case hexadecimal digit. *)
Definition hex_char (c : Z) : Prop := 48 ≤ c ≤ 57 ∨ 97 ≤ c ≤ 102.

(** The sub-chunks the loop of [prepare_chunks] goes through for one
    document: none when the stripped content is empty. *)
Definition pieces (split_text : list Z → list (list Z)) (doc : section_doc)
  : list (list Z) :=
  match strip (default [] (DocDict.content (as_dict doc))) with
  | [] => []
  | c :: content => split_text (c :: content)
  end.

(** A stored record as [index_documents] writes them: string metadata with
    a document id and a file name, and no key that would shadow the content
    or the score of a search row. *)
Definition indexed_entry (e : entry) : Prop :=
  (∀ k v, metadata e !! k = Some v → ∃ s, v = VStr s)
  ∧ is_Some (metadata e !! "doc_id")
  ∧ is_Some (metadata e !! "filename")
  ∧ metadata e !! "content" = None
  ∧ metadata e !! "score" = None.

Definition indexed_store (w : World) : Prop :=
  ∀ m, stored w = Some m → map_Forall (λ _ e, indexed_entry e) m.

(** A computation that keeps a property of the world, however it ends. *)
Definition keeps {A} (P : World → Prop) (m : M A) : Prop :=
  ∀ w, P w → P (m w).2.

(** The calls the HTTP routes make. *)
Definition route_call (c : call) : Prop :=
  match c with
  | IndexDocuments _ | SearchDocuments _ | ClearDocuments | GetStats
  | HealthCheck => True
  | _ => False
  end.

(** The ids of the chunks, in order: [[c["id"] for c in chunks]]. *)
Definition chunk_ids (chunks : list (gmap string pyval)) : list (list Z) :=
  omap (λ c : gmap string pyval,
          match c !! "id" with Some (VStr id) => Some id | _ => None end) chunks.

(** A model whose document id and section id can be encoded. *)
Definition well_encoded (d : DocumentChunk.t) : Prop :=
  encodable (DocumentChunk.doc_id d)
  ∧ ∀ s, DocumentChunk.section_id d = Some s → encodable s.

(** * Properties *)

(** Closes [x = y] when [x] evaluates to [y]. *)
Ltac computed :=
  lazymatch goal with
  | |- _ = ?y => vm_cast_no_check (@eq_refl _ y)
  end.

(** ** MD5 against the RFC 1321 test suite and [hashlib] *)

Example md5_empty :
  MD5.hexdigest [] = py "d41d8cd98f00b204e9800998ecf8427e".
Proof. vm_compute. reflexivity. Qed.

Example md5_abc :
  MD5.hexdigest (py "abc") = py "900150983cd24fb0d6963f7d28e17f72".
Proof. vm_compute. reflexivity. Qed.

Example md5_two_blocks :
  MD5.hexdigest
    (py "12345678901234567890123456789012345678901234567890123456789012345678901234567890")
  = py "57edf4a22be3c955ac49da2e2107b67a".
Proof. vm_compute. reflexivity. Qed.

Example md5_of_utf8 :
  MD5.hexdigest <$> encode_utf8 ([47928; 49436] ++ py "::s::1")
  = Some (py "f9d2d4b19fb8d74c61310a4db1930699").
Proof. vm_compute. reflexivity. Qed.

(** ** Strings *)

Lemma py_inj s t : py s = py t → s = t.
Proof.
  unfold py. intros H.
  rewrite <- (string_of_list_ascii_of_string s), <- (string_of_list_ascii_of_string t).
  f_equal. revert H.
  generalize (list_ascii_of_string s) (list_ascii_of_string t).
  induction l as [|a l IH]; intros [|b k] H; simplify_eq/=; try done.
  f_equal; [|by apply IH].
  rewrite <- (ascii_N_embedding a), <- (ascii_N_embedding b). f_equal. lia.
Qed.

Lemma str_of_nat_inj i j : str_of_nat i = str_of_nat j → i = j.
Proof.
  unfold str_of_nat. intros H%py_inj.
  assert (Hu : Nat.to_uint i = Nat.to_uint j).
  { apply (f_equal NilEmpty.uint_of_string) in H.
    rewrite !NilEmpty.usu in H. congruence. }
  rewrite <- (Unsigned.of_to i), <- (Unsigned.of_to j). by rewrite Hu.
Qed.

Lemma utf8_char_prefix_free (c c' : Z) (bs bs' r r' : list Z) :
  utf8_char c = Some bs → utf8_char c' = Some bs' →
  bs ++ r = bs' ++ r' → c = c' ∧ r = r'.
Proof.
  unfold utf8_char. intros H H'.
  repeat case_decide; simplify_eq/=; intros Heq; simplify_eq/=;
    first [split; [|done] | exfalso]; Z.div_mod_to_equations; lia.
Qed.

(** Different strings have different UTF-8 encodings. *)
Lemma encode_utf8_inj (s t b : list Z) :
  encode_utf8 s = Some b → encode_utf8 t = Some b → s = t.
Proof.
  revert t b. induction s as [|c s IH]; intros [|c' t] b; simpl.
  - done.
  - intros [= <-]. destruct (utf8_char c') as [bs|] eqn:Hc; [|done].
    destruct (encode_utf8 t); [|done]. intros [= H].
    unfold utf8_char in Hc. repeat case_decide; simplify_eq/=.
  - destruct (utf8_char c) as [bs|] eqn:Hc; [|done].
    destruct (encode_utf8 s); [|done]. intros [= <-] [= H].
    unfold utf8_char in Hc. repeat case_decide; simplify_eq/=.
  - destruct (utf8_char c) as [bs|] eqn:Hc; [|done].
    destruct (encode_utf8 s) as [bs1|] eqn:Hs; [|done].
    destruct (utf8_char c') as [bs'|] eqn:Hc'; [|done].
    destruct (encode_utf8 t) as [bs1'|] eqn:Ht; [|done].
    intros [= <-] [= H].
    destruct (utf8_char_prefix_free c c' bs bs' bs1 bs1' Hc Hc') as [-> ->]; [done|].
    f_equal. by eapply IH.
Qed.

Example encode_utf8_lone_surrogate : encode_utf8 [0xD800] = None.
Proof. reflexivity. Qed.

Lemma until_separator_inj (c : Z) (a b r r' : list Z) :
  c ∉ a → c ∉ b → a ++ c :: r = b ++ c :: r' → a = b ∧ r = r'.
Proof.
  revert b. induction a as [|x a IH]; intros [|y b] Ha Hb H; simpl in H.
  - by injection H as ->.
  - injection H as -> _. exfalso. apply Hb. constructor.
  - injection H as -> _. exfalso. apply Ha. constructor.
  - injection H as -> H.
    apply not_elem_of_cons in Ha as [_ Ha], Hb as [_ Hb].
    by destruct (IH b Ha Hb H) as [-> ->].
Qed.

Lemma split_segment (c : Z) (t s : list Z) :
  c ∉ t → split c (t ++ c :: s) = t :: split c s.
Proof.
  induction t as [|x t IH]; intros Ht; simpl.
  - by rewrite decide_True.
  - rewrite decide_False by set_solver. rewrite IH by set_solver. done.
Qed.

Lemma split_last_segment (c : Z) (t : list Z) : c ∉ t → split c t = [t].
Proof.
  induction t as [|x t IH]; intros Ht; simpl; [done|].
  rewrite decide_False by set_solver. rewrite IH by set_solver. done.
Qed.

Lemma split_join (c : Z) (parts : list (list Z)) :
  parts ≠ [] → Forall (λ t, c ∉ t) parts → split c (join [c] parts) = parts.
Proof.
  induction parts as [|p ps IH]; intros Hne Hall; [done|].
  apply Forall_cons in Hall as [Hp Hps].
  destruct ps as [|p' ps].
  - simpl. by apply split_last_segment.
  - change (join [c] (p :: p' :: ps)) with (p ++ c :: join [c] (p' :: ps)).
    rewrite split_segment by done. f_equal. by apply IH.
Qed.

Lemma tags_split_join (tags : list (list Z)) :
  Forall (λ t, t ≠ [] ∧ 44 ∉ t) tags → tags_split (tags_join tags) = tags.
Proof.
  intros Hall. unfold tags_split, tags_join.
  change (py ",") with [44].
  destruct tags as [|t ts]; [done|].
  rewrite split_join; [|done|by eapply Forall_impl; [done|]; intros ? []].
  induction Hall as [|x l [Hx _] _ IH]; [done|].
  rewrite filter_cons_True by done. by rewrite IH.
Qed.

(** C6. Tags round-trip through storage.  [prepare_chunks] joins
    ["alpha", "beta", "gamma"] into "alpha,beta,gamma" and [search_documents]
    splits that back into the same list; the empty list is stored as the
    empty string and read back as the empty list, not as one empty tag.  The
    same holds of every list of non-empty, comma-free tags. *)
Theorem tags_round_trip :
  tags_join [py "alpha"; py "beta"; py "gamma"] = py "alpha,beta,gamma"
  ∧ tags_split (py "alpha,beta,gamma") = [py "alpha"; py "beta"; py "gamma"]
  ∧ tags_join [] = py ""
  ∧ tags_split (py "") = []
  ∧ (∀ tags, Forall (λ t, t ≠ [] ∧ 44 ∉ t) tags →
             tags_split (tags_join tags) = tags).
Proof.
  split_and!; [by vm_compute..|apply tags_split_join].
Qed.

(** The general part of [tags_round_trip] on the tags of a test
    document. *)
Lemma tags_round_trip_witness :
  tags_split (tags_join [py "art"; py "concept"]) = [py "art"; py "concept"].
Proof.
  apply (proj2 (proj2 (proj2 (proj2 tags_round_trip)))).
  repeat constructor; first [discriminate | apply (bool_decide_unpack _); exact I].
Defined.

(** ** Chunk identity *)

Lemma py_String (a : ascii) (s : string) :
  py (String a s) = Z.of_N (N_of_ascii a) :: py s.
Proof. reflexivity. Qed.

Lemma str_of_nat_digits (c : Z) (i : nat) : c ∈ str_of_nat i → 48 ≤ c ≤ 57.
Proof.
  unfold str_of_nat. generalize (Nat.to_uint i). intros u.
  induction u as [|u IH|u IH|u IH|u IH|u IH|u IH|u IH|u IH|u IH|u IH];
    cbn [NilEmpty.string_of_uint];
    [by intros ?%elem_of_nil|..];
    (rewrite py_String; intros [->|?]%elem_of_cons; [by vm_compute|by apply IH]).
Qed.

(** The key determines the triple as soon as the document ids contain no
    colon: the first colon ends the document id, and the digits of the index
    contain none, so the last "::" ends the section id. *)
Lemma chunk_key_inj (d s d' s' : list Z) (i i' : nat) :
  58 ∉ d → 58 ∉ d' →
  chunk_key d s i = chunk_key d' s' i' → d = d' ∧ s = s' ∧ i = i'.
Proof.
  intros Hd Hd'. unfold chunk_key. change (py "::") with [58; 58].
  simpl. intros H.
  apply until_separator_inj in H as [-> H]; [|done..].
  split; [done|]. injection H as H.
  apply (f_equal reverse) in H.
  rewrite !reverse_app, !reverse_cons, <- !(assoc_L (++)) in H. simpl in H.
  apply until_separator_inj in H as [Hi H].
  - apply (f_equal reverse) in Hi. rewrite !reverse_involutive in Hi.
    apply str_of_nat_inj in Hi as ->. injection H as H.
    apply (f_equal reverse) in H. by rewrite !reverse_involutive in H.
  - intros Hc%elem_of_reverse%str_of_nat_digits. lia.
  - intros Hc%elem_of_reverse%str_of_nat_digits. lia.
Qed.

(** C2 does not hold of the code.  The key joins the three components with
    "::" and nothing keeps the delimiter out of them, so moving a "::" from
    the section id into the document id gives another triple with the same
    key, hence the same id: of the two sections below, different documents,
    [prepare_chunks] gives two chunks with one id.  Indexed together the
    store refuses them; indexed one after the other, the second replaces the
    first. *)
Theorem chunk_ids_collide_on_the_delimiter :
  (∀ a b c i,
     (a ++ py "::" ++ b, c, i) ≠ (a, b ++ py "::" ++ c, i)
     ∧ chunk_key (a ++ py "::" ++ b) c i = chunk_key a (b ++ py "::" ++ c) i
     ∧ _chunk_id (a ++ py "::" ++ b) c i = _chunk_id a (b ++ py "::" ++ c) i)
  ∧ _chunk_id (py "a::b") (py "c") 0 = Ok (py "e22760eb198a671f2a1eb78f74085c5a")
  ∧ _chunk_id (py "a") (py "b::c") 0 = Ok (py "e22760eb198a671f2a1eb78f74085c5a")
  ∧ prepare_chunks one_piece (Model <$> colliding_sections) = Ok colliding_chunks
  ∧ (λ c : gmap string pyval, c !! "doc_id") <$> colliding_chunks
    = [Some (VStr (py "a::b")); Some (VStr (py "a"))]
  ∧ chunk_ids colliding_chunks
    = [py "e22760eb198a671f2a1eb78f74085c5a"; py "e22760eb198a671f2a1eb78f74085c5a"]
  ∧ (index_documents one_piece colliding_sections fresh_world).1
    = Raise (HTTPException 500 DuplicateIDError)
  ∧ (count (after_all same_text_distance one_piece whole_number
              [IndexDocuments (take 1 colliding_sections);
               IndexDocuments (drop 1 colliding_sections)] fresh_world)).1
    = Ok 1.
Proof.
  split; [|split_and!; computed].
  intros a b c i.
  assert (Hkey : chunk_key (a ++ py "::" ++ b) c i = chunk_key a (b ++ py "::" ++ c) i)
    by (unfold chunk_key; by rewrite <- !(assoc_L (++))).
  split; [|split; [done|unfold _chunk_id; by rewrite Hkey]].
  intros [= H _]. apply (f_equal length) in H.
  rewrite !length_app in H. simpl in H. lia.
Qed.

(** ** Assembly of chunks *)

Lemma lstrip_nil_iff (s : list Z) :
  lstrip s = [] ↔ Forall (λ c, isspace c = true) s.
Proof.
  induction s as [|c s IH]; simpl; [by split|].
  destruct (isspace c) eqn:Hc.
  - rewrite IH. split; [by constructor|by inversion 1].
  - split; [done|]. inversion 1; congruence.
Qed.

Lemma lstrip_head (s : list Z) :
  match lstrip s with
  | [] => True
  | c :: _ => isspace c = false
  end.
Proof.
  induction s as [|c s IH]; simpl; [done|]. by destruct (isspace c) eqn:Hc.
Qed.

(** [strip] leaves nothing exactly when the text is whitespace only. *)
Lemma strip_nil_iff (s : list Z) :
  strip s = [] ↔ Forall (λ c, isspace c = true) s.
Proof.
  unfold strip, rstrip. split.
  - intros H. apply (f_equal reverse) in H. rewrite reverse_involutive in H.
    change (reverse []) with (@nil Z) in H.
    apply lstrip_nil_iff in H. rewrite Forall_reverse in H.
    apply lstrip_nil_iff.
    pose proof (lstrip_head s) as Hh. destruct (lstrip s) as [|c t]; [done|].
    apply Forall_cons in H as [H _]. congruence.
  - intros H. apply lstrip_nil_iff in H. by rewrite H.
Qed.

Section Assembly.

Context (split_text : list Z → list (list Z)).

Lemma chunks_of_blank (doc : section_doc) :
  blank doc → chunks_of_document split_text doc = Ok [].
Proof.
  unfold blank, chunks_of_document. intros H%strip_nil_iff. by rewrite H.
Qed.

Lemma prepare_chunks_blank (documents : list section_doc) :
  Forall blank documents → prepare_chunks split_text documents = Ok [].
Proof.
  induction 1 as [|doc rest Hdoc _ IH]; simpl; [done|].
  by rewrite chunks_of_blank, IH.
Qed.

Lemma add_chunks_nil (w : World) : add_chunks [] w = (Ok tt, w).
Proof. done. Qed.

(** C7. Indexing no documents, or only documents whose content is empty or
    whitespace, assembles no chunk, answers [indexed = 0] and leaves the
    world (service handles, store, pending faults) as it was. *)
Theorem index_of_blank_documents (docs : list DocumentChunk.t) (w : World) :
  Forall (λ d, blank (Model d)) docs →
  prepare_chunks split_text (Model <$> docs) = Ok []
  ∧ index_documents split_text docs w = (Ok (MkIndexResponse 0), w)
  ∧ index_documents split_text [] w = (Ok (MkIndexResponse 0), w).
Proof.
  intros Hblank.
  assert (H : prepare_chunks split_text (Model <$> docs) = Ok [])
    by by apply prepare_chunks_blank, Forall_fmap.
  split_and!; [done| |done].
  unfold index_documents, or_500, try_except, bind, lift. by rewrite H.
Qed.

End Assembly.

(** [index_of_blank_documents] on a section of three spaces, with the store
    about to fail. *)
Lemma index_of_blank_documents_witness :
  let doc := DocumentChunk.Make (py "d1") (py "empty.md") (Some (py "d1_s1"))
               (Some (py "")) (py "art_director") (py "   ") [] in
  let w := MkWorld None None None [Some (Fault 1)] in
  prepare_chunks one_piece [Model doc] = Ok []
  ∧ index_documents one_piece [doc] w = (Ok (MkIndexResponse 0), w)
  ∧ index_documents one_piece [] w = (Ok (MkIndexResponse 0), w).
Proof.
  intros doc w. apply (index_of_blank_documents one_piece [doc] w).
  constructor; [|constructor].
  unfold blank. simpl. repeat constructor.
Defined.

Lemma sequence_Ok {A} (l : list (outcome A)) (out : list A) :
  sequence l = Ok out → Forall (λ a, Ok a ∈ l) out.
Proof.
  revert out. induction l as [|o l IH]; simpl; intros out H.
  - injection H as <-. constructor.
  - destruct o as [a|]; simpl in H; [|done].
    destruct (sequence l) as [rest|]; simpl in H; [|done].
    injection H as <-. constructor; [by left|].
    eapply Forall_impl; [by apply IH|]. intros ? ?. by right.
Qed.

Lemma sequence_length {A} (l : list (outcome A)) (out : list A) :
  sequence l = Ok out → length out = length l.
Proof.
  revert out. induction l as [|o l IH]; simpl; intros out H.
  - by injection H as <-.
  - destruct o as [a|]; simpl in H; [|done].
    destruct (sequence l) as [rest|]; simpl in H; [|done].
    injection H as <-. simpl. f_equal. by apply IH.
Qed.

Lemma chunk_dict_fields (d : DocDict.t) (sid : list Z) (idx : nat)
    (text : list Z) (c : gmap string pyval) :
  chunk_dict d sid idx text = Ok c →
  ∃ doc_id id filename,
    DocDict.doc_id d = Some doc_id
    ∧ _chunk_id doc_id sid idx = Ok id
    ∧ DocDict.filename d = Some filename
    ∧ c = list_to_map
            [("id", VStr id);
             ("content", VStr text);
             ("doc_id", VStr doc_id);
             ("filename", VStr filename);
             ("section_id", VStr sid);
             ("heading", VStr (match DocDict.heading d with
                               | Some (Some h) => h
                               | _ => []
                               end));
             ("speaker", VStr (default (py "unknown") (DocDict.speaker d)));
             ("tags", VStr (tags_join (default [] (DocDict.tags d))))].
Proof.
  unfold chunk_dict, required.
  destruct (DocDict.doc_id d) as [doc_id|]; simpl; [|done].
  destruct (_chunk_id doc_id sid idx) as [id|] eqn:Hid; simpl; [|done].
  destruct (DocDict.filename d) as [filename|]; simpl; [|done].
  intros [= <-]. exists doc_id, id, filename. split_and!; done.
Qed.

Lemma effective_section_id_default (d : DocDict.t) :
  DocDict.section_id d ∈ [None; Some None; Some (Some [])] →
  effective_section_id d = default [] (DocDict.doc_id d).
Proof.
  unfold effective_section_id. intros H.
  repeat (apply elem_of_cons in H as [->|H]; [done|]).
  by apply elem_of_nil in H.
Qed.

Section Metadata.

Context (split_text : list Z → list (list Z)).

(** C9. Every value of a chunk assembled by [prepare_chunks] is a string;
    in particular each metadata field is present with a string value, and
    what [add_chunks] passes to the store as metadata is scalar.  A heading
    that is absent or [None] is stored as the empty string, an absent
    speaker as "unknown", the tags as their comma-joined string, and a
    section id that is absent, [None] or empty as the document id. *)
Theorem prepared_metadata_is_strings
    (documents : list section_doc) (chunks : list (gmap string pyval)) :
  prepare_chunks split_text documents = Ok chunks →
  Forall (λ c : gmap string pyval,
    (∀ k, k ∈ metadata_fields → ∃ s, c !! k = Some (VStr s))
    ∧ (∀ k v, c !! k = Some v → ∃ s, v = VStr s)
    ∧ map_Forall (λ _ v, scalar v = true) (delete "id" (delete "content" c))
    ∧ ∃ doc, doc ∈ documents ∧
        c !! "heading" = Some (VStr (match DocDict.heading (as_dict doc) with
                                     | Some (Some h) => h
                                     | _ => []
                                     end))
        ∧ c !! "speaker"
          = Some (VStr (default (py "unknown") (DocDict.speaker (as_dict doc))))
        ∧ c !! "tags"
          = Some (VStr (tags_join (default [] (DocDict.tags (as_dict doc)))))
        ∧ c !! "doc_id" = VStr <$> DocDict.doc_id (as_dict doc)
        ∧ (DocDict.section_id (as_dict doc) ∈ [None; Some None; Some (Some [])] →
           c !! "section_id" = c !! "doc_id"))
    chunks.
Proof.
  revert chunks. induction documents as [|doc rest IH]; simpl; intros chunks H.
  - injection H as <-. constructor.
  - destruct (chunks_of_document split_text doc) as [out|] eqn:Hout; simpl in H; [|done].
    destruct (prepare_chunks split_text rest) as [more|]; simpl in H; [|done].
    injection H as <-. apply Forall_app. split.
    + unfold chunks_of_document in Hout.
      destruct (strip _) as [|c0 content]; [injection Hout as <-; constructor|].
      apply sequence_Ok in Hout. eapply Forall_impl; [exact Hout|].
      intros c (idx & text & Hc & _)%elem_of_lookup_imap. symmetry in Hc.
      apply chunk_dict_fields in Hc as (doc_id & id & filename & Hd & _ & _ & ->).
      assert (Hall : ∀ k v,
        (list_to_map
           [("id", VStr id); ("content", VStr (text)); ("doc_id", VStr doc_id);
            ("filename", VStr filename);
            ("section_id", VStr (effective_section_id (as_dict doc)));
            ("heading", VStr (match DocDict.heading (as_dict doc) with
                              | Some (Some h) => h
                              | _ => []
                              end));
            ("speaker", VStr (default (py "unknown") (DocDict.speaker (as_dict doc))));
            ("tags", VStr (tags_join (default [] (DocDict.tags (as_dict doc)))))]
         : gmap string pyval) !! k = Some v → ∃ s, v = VStr s).
      { intros k v. simpl.
        repeat (rewrite lookup_insert; case_decide; [intros [= <-]; by eexists|]).
        by rewrite lookup_empty. }
      split_and!.
      * intros k Hk. unfold metadata_fields in Hk.
        repeat (apply elem_of_cons in Hk as [->|Hk]; [by eexists|]).
        by apply elem_of_nil in Hk.
      * exact Hall.
      * intros k v Hk. apply lookup_delete_Some in Hk as [_ Hk].
        apply lookup_delete_Some in Hk as [_ Hk].
        by destruct (Hall k v Hk) as [s ->].
      * exists doc. split; [by left|]. split_and!; try done.
        -- by rewrite Hd.
        -- intros Hsid. rewrite effective_section_id_default by done.
           by rewrite Hd.
    + eapply Forall_impl; [by apply IH|]. simpl.
      intros c (? & ? & ? & doc' & ? & ?). split_and!; try done.
      exists doc'. split; [by right|done].
Qed.

End Metadata.

(** [prepared_metadata_is_strings] on a dict that leaves out the speaker and
    the tags and has a [None] heading and an empty section id. *)
Lemma prepared_metadata_is_strings_witness :
  prepare_chunks one_piece [sparse_document] = Ok [sparse_chunk]
  ∧ sparse_chunk !! "heading" = Some (VStr [])
  ∧ sparse_chunk !! "speaker" = Some (VStr (py "unknown"))
  ∧ sparse_chunk !! "section_id" = Some (VStr (py "d1"))
  ∧ sparse_chunk !! "tags" = Some (VStr []).
Proof.
  assert (H : prepare_chunks one_piece [sparse_document] = Ok [sparse_chunk])
    by computed.
  split; [exact H|].
  pose proof (prepared_metadata_is_strings one_piece _ _ H) as Hall.
  apply Forall_cons in Hall as [(_ & _ & _ & doc & Hdoc & Hh & Hs & Ht & Hd & Hsid) _].
  apply list_elem_of_singleton in Hdoc. subst doc.
  split; [exact Hh|]. split; [exact Hs|]. split; [|exact Ht].
  rewrite Hsid; [exact Hd|]. right. right. left.
Defined.

(** ** The service object *)

Ltac run :=
  unfold is_ready, health_check, clear_documents, get_stats, index_documents,
    search_documents, or_500, count, unique_doc_count, clear, search, add_chunks,
    collection_query, collection_get_metadatas, collection_count,
    collection_upsert, delete_collection, get_or_create_collection,
    SentenceTransformerEmbeddingFunction, PersistentClient, the_collection,
    assert_not_None, try_except, bind, lift, modify, get, raise, ret;
  simpl.

Lemma ensure_ready_with_client (w : World) :
  is_Some (_client w) → _ensure_ready w = (Ok tt, w).
Proof. intros [c Hc]. unfold _ensure_ready, bind, get. by rewrite Hc. Qed.

Lemma external_call_handles (w : World) :
  _client (external_call w).2 = _client w
  ∧ _collection (external_call w).2 = _collection w
  ∧ stored (external_call w).2 = stored w.
Proof. unfold external_call. by destruct (faults w) as [|[e|] rest]. Qed.

(** C8. The health probe returns a boolean from every world, whatever
    faults are pending: when initialisation raises, the fault is caught, the
    probe answers [False], and the world is the one initialisation left;
    [health_check] therefore always answers with status "ok". *)
Theorem is_ready_never_raises (w : World) :
  ∃ (b : bool) (w' : World),
    is_ready w = (Ok b, w')
    ∧ health_check w = (Ok (MkHealthResponse "ok" VERSION b), w')
    ∧ match _ensure_ready w with
      | (Ok _, w1) => w' = w1 ∧ b = match _collection w1 with Some _ => true | None => false end
      | (Raise _, w1) => w' = w1 ∧ b = false
      end.
Proof.
  unfold health_check, is_ready, try_except, bind, get, ret.
  destruct (_ensure_ready w) as [[u|e] w1]; simpl; by eexists _, _.
Qed.

(** The probe on a store whose collection cannot be opened. *)
Example is_ready_catches_a_fault :
  is_ready (MkWorld None None None [None; None; Some (Fault 13)])
  = (Ok false, MkWorld (Some PersistentClientHandle) None None []).
Proof. reflexivity. Qed.

Section Cleared.

Context (distance : list Z → list Z → Q) (split_text : list Z → list (list Z))
  (float_of_str : list Z → option Q).

Lemma dropped_add_chunks w c cs :
  dropped w → add_chunks (c :: cs) w = (Raise AssertionError, w).
Proof.
  intros [Hc Hcol]. unfold add_chunks, bind.
  rewrite ensure_ready_with_client by done. unfold get. by rewrite Hcol.
Qed.

Lemma dropped_search w q n :
  dropped w → search distance q n w = (Raise AssertionError, w).
Proof.
  intros [Hc Hcol]. unfold search, bind.
  rewrite ensure_ready_with_client by done. unfold get. by rewrite Hcol.
Qed.

Lemma dropped_count w : dropped w → count w = (Raise AssertionError, w).
Proof.
  intros [Hc Hcol]. unfold count, bind.
  rewrite ensure_ready_with_client by done. unfold get. by rewrite Hcol.
Qed.

Lemma dropped_unique_doc_count w :
  dropped w → unique_doc_count w = (Raise AssertionError, w).
Proof.
  intros [Hc Hcol]. unfold unique_doc_count, bind.
  rewrite ensure_ready_with_client by done. unfold get. by rewrite Hcol.
Qed.

Lemma dropped_is_ready w : dropped w → is_ready w = (Ok false, w).
Proof.
  intros [Hc Hcol]. unfold is_ready, try_except, bind.
  rewrite ensure_ready_with_client by done. unfold get, ret. by rewrite Hcol.
Qed.

Lemma dropped_clear w : dropped w → dropped (clear w).2.
Proof.
  intros [Hc Hcol]. unfold clear, bind.
  rewrite ensure_ready_with_client by done. unfold get.
  destruct Hc as [c Hc]. rewrite Hc. simpl.
  unfold delete_collection, bind.
  pose proof (external_call_handles w) as (H1 & H2 & _).
  destruct (external_call w) as [[[]|e] w1]; simpl in *.
  - unfold the_collection, bind, get, modify.
    destruct (stored w1); unfold dropped; simpl; by rewrite ?H1, ?H2, ?Hc, ?Hcol.
  - unfold dropped. by rewrite H1, H2, Hc, Hcol.
Qed.

(** Once dropped, [clear] cannot succeed again: the collection it deletes
    is no longer there. *)
Lemma dropped_clear_raises w :
  dropped w → stored w = None → ∃ e w', clear w = (Raise e, w').
Proof.
  intros [Hc Hcol] Hst. unfold clear, bind.
  rewrite ensure_ready_with_client by done. unfold get.
  destruct Hc as [c Hc]. rewrite Hc. simpl.
  unfold delete_collection, bind.
  pose proof (external_call_handles w) as (_ & _ & H3).
  destruct (external_call w) as [[[]|e] w1]; simpl in *; [|by eexists _, _].
  unfold the_collection, bind, get. rewrite H3, Hst. by eexists _, _.
Qed.

Lemma clear_returns_dropped w w' :
  clear w = (Ok tt, w') → dropped w' ∧ stored w' = None.
Proof.
  unfold clear, bind, get.
  destruct (_ensure_ready w) as [[[]|e] w1] eqn:Hready; [|done].
  assert (Hc : is_Some (_client w1)).
  { revert Hready. unfold _ensure_ready, bind, get.
    destruct (_client w) as [c|] eqn:Hcl; [by intros [= <-]; rewrite Hcl|].
    run. pose proof (external_call_handles w) as _.
    destruct (external_call w) as [[[]|e] wa]; simpl; [|done].
    destruct (external_call _) as [[[]|e] wb] eqn:Hb; simpl; [|done].
    pose proof (external_call_handles (set_client (Some PersistentClientHandle) wa))
      as (Hb1 & _). rewrite Hb in Hb1. simpl in Hb1.
    destruct (external_call wb) as [[[]|e] wc] eqn:Hc; simpl; [|done].
    pose proof (external_call_handles wb) as (Hc1 & _). rewrite Hc in Hc1.
    simpl in Hc1.
    destruct (stored wc); intros [= <-]; simpl; by rewrite Hc1, Hb1. }
  destruct Hc as [c Hc]. rewrite Hc. simpl.
  unfold delete_collection, bind.
  pose proof (external_call_handles w1) as (H1 & H2 & _).
  destruct (external_call w1) as [[[]|e] w2]; simpl in *; [|done].
  unfold the_collection, bind, get, modify.
  destruct (stored w2); simpl; [|done].
  intros [= <-]. unfold dropped. simpl. by rewrite H1, Hc.
Qed.

Lemma dropped_after (c : call) (w : World) :
  dropped w → dropped (after distance split_text float_of_str c w).
Proof.
  intros Hw. destruct c; simpl.
  - destruct chunks; [done|]. by rewrite dropped_add_chunks.
  - by rewrite dropped_search.
  - by apply dropped_clear.
  - by rewrite dropped_count.
  - by rewrite dropped_unique_doc_count.
  - by rewrite dropped_is_ready.
  - unfold index_documents, or_500, try_except, bind, lift.
    destruct (prepare_chunks _ _) as [[|c cs]|]; cbv beta iota; [done| |done].
    by rewrite dropped_add_chunks.
  - unfold search_documents, or_500, try_except, bind.
    by rewrite dropped_search.
  - unfold clear_documents, or_500, try_except, bind.
    pose proof (dropped_clear w Hw). by destruct (clear w) as [[[]|e] w1].
  - unfold get_stats, or_500, try_except, bind.
    by rewrite dropped_unique_doc_count.
  - unfold health_check, bind. by rewrite dropped_is_ready.
Qed.

Lemma dropped_after_all (calls : list call) (w : World) :
  dropped w → dropped (after_all distance split_text float_of_str calls w).
Proof.
  revert w. induction calls as [|c calls IH]; intros w Hw; [done|].
  simpl. by apply IH, dropped_after.
Qed.

(** C10. Once [clear] has returned, the probe answers [False] after every
    further sequence of calls on the service, routes included: the client
    handle stays set and the collection handle stays [None]. *)
Theorem is_ready_false_after_clear (w w' : World) (calls : list call) :
  clear w = (Ok tt, w') →
  is_ready (after_all distance split_text float_of_str calls w')
  = (Ok false, after_all distance split_text float_of_str calls w')
  ∧ dropped (after_all distance split_text float_of_str calls w').
Proof.
  intros [Hw' _]%clear_returns_dropped.
  pose proof (dropped_after_all calls w' Hw'). by rewrite dropped_is_ready.
Qed.

End Cleared.

(** [is_ready_false_after_clear] in a process that clears first and then
    asks for a count, indexes, clears again and polls its health. *)
Lemma is_ready_false_after_clear_witness :
  let w' := MkWorld (Some PersistentClientHandle) None None [] in
  let doc := DocumentChunk.Make (py "d1") (py "a.md") None None (py "s")
               (py "some text") [] in
  let calls := [Count; IndexDocuments [doc]; Clear; GetStats; HealthCheck] in
  clear fresh_world = (Ok tt, w')
  ∧ is_ready (after_all same_text_distance one_piece whole_number calls w')
    = (Ok false, after_all same_text_distance one_piece whole_number calls w')
  ∧ dropped (after_all same_text_distance one_piece whole_number calls w').
Proof.
  intros w' doc calls. split; [reflexivity|].
  apply (is_ready_false_after_clear same_text_distance one_piece whole_number
           fresh_world w' calls).
  reflexivity.
Defined.

Section AfterClear.

Context (distance : list Z → list Z → Q).

(** C1 does not hold of the code.  After [clear] has returned, the
    collection is not created again: [count], [search] and [add_chunks] on a
    non-empty list fail their assertion and leave the world as it is, and a
    second [clear] raises as well. *)
Theorem nothing_recreates_the_collection (w w' : World) :
  clear w = (Ok tt, w') →
  count w' = (Raise AssertionError, w')
  ∧ (∀ q n, search distance q n w' = (Raise AssertionError, w'))
  ∧ (∀ c cs, add_chunks (c :: cs) w' = (Raise AssertionError, w'))
  ∧ (∃ e w'', clear w' = (Raise e, w''))
  ∧ get_stats w' = (Raise (HTTPException 500 AssertionError), w').
Proof.
  intros [Hw' Hst]%clear_returns_dropped. split_and!.
  - by apply dropped_count.
  - intros. by apply dropped_search.
  - intros. by apply dropped_add_chunks.
  - by apply dropped_clear_raises.
  - unfold get_stats, or_500, try_except, bind.
    by rewrite dropped_unique_doc_count.
Qed.

End AfterClear.

(** [nothing_recreates_the_collection] in a new process with a reachable
    store: [clear] succeeds, and the count that follows fails. *)
Lemma nothing_recreates_the_collection_witness :
  let w' := MkWorld (Some PersistentClientHandle) None None [] in
  clear fresh_world = (Ok tt, w')
  ∧ clear_documents fresh_world = (Ok (MkClearResponse true), w')
  ∧ count w' = (Raise AssertionError, w')
  ∧ search same_text_distance (py "q") 3 w' = (Raise AssertionError, w')
  ∧ clear w' = (Raise CollectionNotFound, w').
Proof.
  intros w'.
  pose proof (nothing_recreates_the_collection same_text_distance fresh_world w'
                eq_refl) as (Hcount & Hsearch & _).
  split_and!; [reflexivity|reflexivity|exact Hcount|apply Hsearch|reflexivity].
Defined.

(** ** Upsert *)

Lemma write_all_union (rs : list (list Z * entry)) (m : gmap (list Z) entry) :
  write_all rs m = list_to_map (reverse rs) ∪ m.
Proof.
  unfold write_all. revert m. induction rs as [|[k e] rs IH]; intros m; simpl.
  - by rewrite (left_id_L ∅ (∪)).
  - rewrite IH, reverse_cons, list_to_map_app. simpl.
    rewrite <- (assoc_L (∪)). f_equal.
    by rewrite insert_empty, insert_union_singleton_l.
Qed.

(** Writing the same records a second time changes nothing. *)
Lemma write_all_idempotent (rs : list (list Z * entry)) (m : gmap (list Z) entry) :
  write_all rs (write_all rs m) = write_all rs m.
Proof.
  rewrite !write_all_union, (assoc_L (∪)). f_equal. apply (idemp_L (∪)).
Qed.

Lemma ensure_ready_client (w w1 : World) :
  _ensure_ready w = (Ok tt, w1) → is_Some (_client w1).
Proof.
  unfold _ensure_ready, bind, get.
  destruct (_client w) as [c|] eqn:Hcl; [by intros [= <-]; rewrite Hcl|].
  run.
  destruct (external_call w) as [[[]|e] wa]; simpl; [|done].
  destruct (external_call _) as [[[]|e] wb] eqn:Hb; simpl; [|done].
  pose proof (external_call_handles (set_client (Some PersistentClientHandle) wa))
    as (Hb1 & _). rewrite Hb in Hb1. simpl in Hb1.
  destruct (external_call wb) as [[[]|e] wc] eqn:Hc; simpl; [|done].
  pose proof (external_call_handles wb) as (Hc1 & _). rewrite Hc in Hc1.
  simpl in Hc1.
  destruct (stored wc); intros [= <-]; simpl; by rewrite Hc1, Hb1.
Qed.

(** What [upsert] does to the world: it raises and leaves the store and the
    handles alone, or returns having written every record. *)
Lemma collection_upsert_effect ids docs metas (w : World) :
  match collection_upsert ids docs metas w with
  | (Ok _, w') =>
      ∃ m rs, stored w = Some m ∧ records ids docs metas = Ok rs
              ∧ stored w' = Some (write_all rs m)
              ∧ _client w' = _client w ∧ _collection w' = _collection w
  | (Raise _, w') =>
      stored w' = stored w ∧ _client w' = _client w
      ∧ _collection w' = _collection w
  end.
Proof.
  unfold collection_upsert, bind.
  pose proof (external_call_handles w) as (H1 & H2 & H3).
  destruct (external_call w) as [[[]|e] w1]; simpl in *; [|done].
  unfold the_collection, bind, get, lift, modify.
  destruct (stored w1) as [m|] eqn:Hm; simpl; [|by rewrite Hm].
  destruct (records ids docs metas) as [rs|] eqn:Hrs; simpl; [|by rewrite Hm].
  exists m, rs. by rewrite <- H3.
Qed.

Lemma add_chunks_effect (c : gmap string pyval) cs (w : World) :
  let ids := (λ c : gmap string pyval, getitem c "id") <$> (c :: cs) in
  let docs := (λ c : gmap string pyval, getitem c "content") <$> (c :: cs) in
  let metas := (λ c : gmap string pyval, delete "id" (delete "content" c)) <$> (c :: cs) in
  match add_chunks (c :: cs) w with
  | (Ok _, w') =>
      ∃ m rs ids' docs', stored (_ensure_ready w).2 = Some m
              ∧ sequence ids = Ok ids' ∧ sequence docs = Ok docs'
              ∧ records ids' docs' metas = Ok rs
              ∧ stored w' = Some (write_all rs m)
              ∧ is_Some (_client w') ∧ is_Some (_collection w')
              ∧ _client w' = _client (_ensure_ready w).2
              ∧ _collection w' = _collection (_ensure_ready w).2
  | (Raise _, w') =>
      stored w' = stored (_ensure_ready w).2
      ∧ _client w' = _client (_ensure_ready w).2
      ∧ _collection w' = _collection (_ensure_ready w).2
  end.
Proof.
  intros ids docs metas. unfold add_chunks. cbv beta iota zeta.
  fold ids docs metas. unfold bind.
  destruct (_ensure_ready w) as [[[]|e] w1] eqn:Hready; [|by split_and!].
  apply ensure_ready_client in Hready. unfold get. cbv beta iota. unfold snd.
  destruct (_collection w1) as [col|] eqn:Hcol; unfold assert_not_None, ret, raise;
    cbv beta iota; [|by split_and!].
  unfold lift.
  destruct (sequence ids) as [ids'|] eqn:Hids; cbv beta iota; [|by split_and!].
  destruct (sequence docs) as [docs'|] eqn:Hdocs; cbv beta iota; [|by split_and!].
  pose proof (collection_upsert_effect ids' docs' metas w1) as Hup.
  destruct (collection_upsert ids' docs' metas w1) as [[[]|e] w2];
    [|by rewrite Hcol in Hup].
  destruct Hup as (m & rs & Hm & Hrs & Hst & Hc2 & Hcol2).
  exists m, rs, ids', docs'. rewrite Hc2, Hcol2, Hcol. by split_and!.
Qed.

Lemma same_but_faults (w w' : World) :
  _client w' = _client w → _collection w' = _collection w →
  stored w' = stored w → set_faults [] w' = set_faults [] w.
Proof. destruct w, w'. simpl. by intros -> -> ->. Qed.

Section Idempotence.

Context (split_text : list Z → list (list Z)).

(** C3. When indexing some documents has succeeded, indexing the same
    documents again leaves the stored collection, and so the chunk count, as
    the first call left it, whether or not the store faults this time; when
    the second call returns, it reports the same number of chunks. *)
Theorem reindexing_changes_nothing
    (docs : list DocumentChunk.t) (w w1 : World) (r1 : IndexResponse) :
  index_documents split_text docs w = (Ok r1, w1) →
  stored (index_documents split_text docs w1).2 = stored w1
  ∧ count (set_faults [] (index_documents split_text docs w1).2)
    = count (set_faults [] w1)
  ∧ (∀ r2, (index_documents split_text docs w1).1 = Ok r2 → r2 = r1).
Proof.
  unfold index_documents, or_500, try_except, bind, lift.
  destruct (prepare_chunks split_text (Model <$> docs)) as [[|c cs]|];
    cbv beta iota; [|clear docs|done].
  { intros [= <- <-]. simpl. split_and!; [done..|]. by intros ? [= <-]. }
  pose proof (add_chunks_effect c cs w) as H1.
  destruct (add_chunks (c :: cs) w) as [[[]|e] w1'] eqn:Hadd1; [|done].
  intros [= <- <-].
  destruct H1 as (m & rs & ids' & docs' & _ & Hids & Hdocs & Hrs & Hst & Hc & Hcol & _).
  pose proof (add_chunks_effect c cs w1') as H2.
  rewrite (ensure_ready_with_client w1' Hc) in H2. cbv zeta in H2. unfold snd in H2.
  destruct (add_chunks (c :: cs) w1') as [[[]|e] w2] eqn:Hadd2; unfold ret, raise;
    cbv beta iota; unfold fst, snd.
  - destruct H2 as (m2 & rs2 & ids2 & docs2 & Hm2 & Hids2 & Hdocs2 & Hrs2 & Hst2
                    & _ & _ & Hc2 & Hcol2).
    assert (ids2 = ids') as -> by congruence.
    assert (docs2 = docs') as -> by congruence.
    assert (rs2 = rs) as -> by congruence.
    assert (m2 = write_all rs m) as -> by congruence.
    rewrite write_all_idempotent in Hst2.
    assert (Hst' : stored w2 = stored w1') by congruence.
    split_and!; [done| |by intros ? [= <-]].
    by rewrite (same_but_faults w1' w2).
  - destruct H2 as (Hst' & Hc' & Hcol'). split_and!; [done| |done].
    by rewrite (same_but_faults w1' w2).
Qed.

End Idempotence.

(** [reindexing_changes_nothing] on two sections indexed into an empty
    store: two chunks after the first call, two after the second. *)
Lemma reindexing_changes_nothing_witness :
  index_documents one_piece two_sections fresh_world
  = (Ok (MkIndexResponse 2), indexed_world)
  ∧ count indexed_world = (Ok 2, indexed_world)
  ∧ index_documents one_piece two_sections indexed_world
    = (Ok (MkIndexResponse 2), indexed_world)
  ∧ stored (index_documents one_piece two_sections indexed_world).2
    = stored indexed_world
  ∧ count (set_faults [] (index_documents one_piece two_sections indexed_world).2)
    = count (set_faults [] indexed_world)
  ∧ (∀ r2, (index_documents one_piece two_sections indexed_world).1 = Ok r2 →
           r2 = MkIndexResponse 2).
Proof.
  split; [computed|]. split; [computed|]. split; [computed|].
  apply (reindexing_changes_nothing one_piece two_sections fresh_world
           indexed_world (MkIndexResponse 2)).
  computed.
Defined.

(** ** Search *)

Lemma insert_nearest_length x l : length (insert_nearest x l) = S (length l).
Proof.
  induction l as [|y l IH]; simpl; [done|].
  destruct (Qle_bool x.2 y.2); simpl; by rewrite ?IH.
Qed.

Lemma nearest_first_length l : length (nearest_first l) = length l.
Proof.
  induction l as [|x l IH]; simpl; [done|]. by rewrite insert_nearest_length, IH.
Qed.

Lemma insert_nearest_Forall (P : entry * Q → Prop) x l :
  P x → Forall P l → Forall P (insert_nearest x l).
Proof.
  intros Hx. induction 1 as [|y l Hy Hl IH]; simpl; [by repeat constructor|].
  destruct (Qle_bool x.2 y.2); repeat constructor; done.
Qed.

Lemma nearest_first_Forall (P : entry * Q → Prop) l :
  Forall P l → Forall P (nearest_first l).
Proof.
  induction 1 as [|x l Hx Hl IH]; simpl; [constructor|].
  by apply insert_nearest_Forall.
Qed.

Lemma zip_columns {A B C D} (f : A → B) (g : A → C) (h : A → D) (l : list A) :
  zip (zip (f <$> l) (g <$> l)) (h <$> l) = (λ r, (f r, g r, h r)) <$> l.
Proof. induction l as [|x l IH]; simpl; [done|]. f_equal. exact IH. Qed.

Lemma score_bounds (d : Q) :
  (0 <= d <= 2)%Q → (0 <= score_of_distance d <= 1)%Q.
Proof.
  unfold score_of_distance. change (d / 2)%Q with (d * (1 # 2))%Q.
  intros [H0 H2]. split; lra.
Qed.

Lemma external_call_quiet (w : World) :
  faults w = [] → external_call w = (Ok tt, w).
Proof. unfold external_call. by intros ->. Qed.

Section Search.

Context (distance : list Z → list Z → Q) (float_of_str : list Z → option Q).

Lemma neighbours_distance q k m :
  Forall (λ r, r.2 = distance q (document r.1)) (neighbours distance q k m).
Proof.
  unfold neighbours. apply Forall_take, nearest_first_Forall, Forall_fmap.
  by apply Forall_true.
Qed.

Lemma neighbours_length q k m :
  length (neighbours distance q k m) = (k `min` size m)%nat.
Proof.
  unfold neighbours.
  by rewrite length_take, nearest_first_length, length_fmap, length_map_to_list.
Qed.

Lemma neighbours_entries (q : list Z) (k : nat) (m : gmap (list Z) entry) :
  Forall (λ r, (∃ id, m !! id = Some r.1) ∧ r.2 = distance q (document r.1))
    (neighbours distance q k m).
Proof.
  unfold neighbours. apply Forall_take, nearest_first_Forall, Forall_fmap, Forall_forall.
  intros [id e] He%elem_of_map_to_list. simpl. split; [by exists id|done].
Qed.

(** Whatever the world, the rows [search] returns are the nearest
    neighbours in the collection the call leaves in the store, as many as
    the limit and the size of the collection allow, each with its content,
    its score and its metadata. *)
Lemma search_rows q n w rows w' :
  search distance q n w = (Ok rows, w') →
  ∃ m, stored w' = Some m
       ∧ rows = (λ r, result_row (document r.1) (metadata r.1) r.2)
                  <$> neighbours distance q
                        (Z.to_nat (n `min` Z.of_nat (size m))) m.
Proof.
  unfold search, bind, get.
  destruct (_ensure_ready w) as [[[]|e] w1]; [|done].
  destruct (_collection w1) as [col|]; unfold assert_not_None, ret, raise;
    cbv beta iota; [|done].
  unfold collection_count, collection_query, the_collection, bind, get, ret, raise.
  destruct (external_call w1) as [[[]|e] w2]; cbv beta iota; [|done].
  destruct (stored w2) as [m|] eqn:Hm; cbv beta iota; [|done].
  case_decide as Hz.
  { intros [= <- <-]. exists m. split; [done|].
    replace (Z.to_nat (n `min` Z.of_nat (size m))) with 0%nat by lia. done. }
  pose proof (external_call_handles w2) as (_ & _ & H3).
  destruct (external_call w2) as [[[]|e] w3]; cbv beta iota; [|done].
  simpl in H3. rewrite H3, Hm. cbv beta iota.
  case_decide; [done|]. intros [= <- <-]. simpl.
  exists m. split; [by rewrite H3|].
  by rewrite zip_columns, <- list_fmap_compose.
Qed.

(** The bound on the score does not rest on exact arithmetic: it holds
    under every monotone rounding that leaves 0 and 1 as they are. *)
Lemma score_bounds_rounded (rnd : Q → Q) (d : Q) :
  (∀ x y, x <= y → rnd x <= rnd y)%Q → (rnd 0 == 0)%Q → (rnd 1 == 1)%Q →
  (0 <= d <= 2)%Q → (0 <= score_of_distance_rounded rnd d <= 1)%Q.
Proof.
  intros Hmono H0 H1 [Hd0 Hd2]. unfold score_of_distance_rounded.
  assert (Hlo : (rnd 0 <= rnd (d / 2))%Q).
  { apply Hmono. change (d / 2)%Q with (d * (1 # 2))%Q. lra. }
  assert (Hhi : (rnd (d / 2) <= rnd 1)%Q).
  { apply Hmono. change (d / 2)%Q with (d * (1 # 2))%Q. lra. }
  pose proof (Hmono 0 (1 - rnd (d / 2)))%Q as Ha.
  pose proof (Hmono (1 - rnd (d / 2)) 1)%Q as Hb.
  split; [rewrite <- H0 at 1; apply Ha|rewrite <- H1 at 2; apply Hb]; lra.
Qed.


Lemma ensure_ready_serving m w :
  serving m w →
  ∃ w1, _ensure_ready w = (Ok tt, w1) ∧ faults w1 = []
        ∧ is_Some (_collection w1) ∧ stored w1 = Some m.
Proof.
  intros [Hf [[Hc Hm]|(Hc & Hcol & Hm)]].
  - exists (MkWorld (Some PersistentClientHandle)
              (Some (CollectionHandle settings.collection_name)) (Some m) []).
    split; [|done].
    destruct w as [c col st fs]. simpl in *. subst c fs.
    unfold _ensure_ready. run. by destruct st; simpl in *; subst.
  - exists w. by rewrite ensure_ready_with_client.
Qed.

(** [search] against a reachable store: nothing from an empty collection,
    otherwise as many nearest neighbours as the limit and the collection
    size allow, and an error from the store for a limit below one. *)
Lemma search_serving m q n w :
  serving m w →
  ∃ w1, search distance q n w
        = (if decide (size m = 0%nat) then Ok []
           else if decide (1 ≤ n) then
             Ok ((λ r, result_row (document r.1) (metadata r.1) r.2)
                   <$> neighbours distance q (Z.to_nat (n `min` Z.of_nat (size m))) m)
           else Raise (InvalidNResults (n `min` Z.of_nat (size m))), w1).
Proof.
  intros (w1 & Hready & Hf & [col Hcol] & Hm)%ensure_ready_serving.
  exists w1. unfold search, bind, get. rewrite Hready, Hcol.
  unfold assert_not_None, ret, raise. cbv beta iota.
  unfold collection_count, collection_query, the_collection, bind, get, ret, raise.
  rewrite external_call_quiet by done. cbv beta iota. rewrite Hm. cbv beta iota.
  destruct (decide (size m = 0%nat)) as [Hz|Hnz].
  - rewrite decide_True by lia. done.
  - rewrite decide_False by lia.
    rewrite external_call_quiet by done. cbv beta iota. rewrite Hm. cbv beta iota.
    destruct (decide (1 ≤ n)).
    + rewrite decide_False by lia. simpl.
      by rewrite zip_columns, <- list_fmap_compose.
    + rewrite decide_True by lia. done.
Qed.

(** [clear] in a process that has its client and meets no fault. *)
Lemma clear_quiet (w : World) :
  faults w = [] → is_Some (_client w) →
  clear w = match stored w with
            | Some _ => (Ok tt, set_collection None (set_stored None w))
            | None => (Raise CollectionNotFound, w)
            end.
Proof.
  intros Hf Hc. unfold clear, bind, get. rewrite ensure_ready_with_client by done.
  destruct Hc as [c Hc]. rewrite Hc. unfold assert_not_None, ret. cbv beta iota.
  unfold delete_collection, the_collection, bind, get, modify, ret, raise.
  rewrite external_call_quiet by done. cbv beta iota. by destruct (stored w).
Qed.

Lemma clear_after_ready (w w1 : World) :
  _ensure_ready w = (Ok tt, w1) → clear w = clear w1.
Proof.
  intros H. pose proof (ensure_ready_client w w1 H) as Hc.
  unfold clear, bind. rewrite H. by rewrite ensure_ready_with_client.
Qed.

Lemma clear_serving m w :
  serving m w →
  ∃ w1, clear w = (Ok tt, w1) ∧ stored w1 = None ∧ faults w1 = [] ∧ dropped w1.
Proof.
  intros (w0 & Hready & Hf & Hcol & Hm)%ensure_ready_serving.
  pose proof (ensure_ready_client w w0 Hready) as Hc.
  rewrite (clear_after_ready w w0 Hready), (clear_quiet w0 Hf Hc), Hm.
  eexists. split; [reflexivity|]. split; [reflexivity|]. split; [exact Hf|].
  split; [exact Hc|reflexivity].
Qed.

(** C5 holds while the service has its collection handle, and fails once
    [clear] has returned.  Before that, with no store fault pending,
    searching an empty collection answers with no results and the query it
    was given, for every limit; on a collection that holds entries, a limit
    of at least one is clamped to the number of entries, so that a limit
    past that number returns them all.  After a [clear] that returned, the
    store is reachable and holds nothing, and every search answers with
    status 500: the assertion on the collection handle fails. *)
Theorem search_is_clamped :
  (∀ w request, serving ∅ w →
     ∃ w', search_documents distance float_of_str request w
           = (Ok (MkSearchResponse [] (query request)), w'))
  ∧ (∀ m w q limit, serving m w → (0 < size m)%nat → 1 ≤ limit →
     ∃ rows w', search distance q limit w = (Ok rows, w')
       ∧ rows = (λ r, result_row (document r.1) (metadata r.1) r.2)
                  <$> neighbours distance q
                        (Z.to_nat (limit `min` Z.of_nat (size m))) m
       ∧ length rows = Z.to_nat (limit `min` Z.of_nat (size m))
       ∧ (Z.of_nat (size m) ≤ limit → length rows = size m))
  ∧ (∀ m w request, serving m w →
     ∃ w1, clear w = (Ok tt, w1) ∧ stored w1 = None ∧ faults w1 = []
           ∧ search_documents distance float_of_str request w1
             = (Raise (HTTPException 500 AssertionError), w1)).
Proof.
  split_and!.
  - intros w request Hw.
    destruct (search_serving ∅ (query request) (top_k request) w Hw) as [w1 H].
    exists w1. unfold search_documents, or_500, try_except, bind, lift.
    rewrite H. by rewrite decide_True by apply map_size_empty.
  - intros m w q limit Hw Hm Hl.
    destruct (search_serving m q limit w Hw) as [w1 H].
    rewrite decide_False, decide_True in H by lia.
    eexists _, w1. split; [exact H|]. split; [done|].
    rewrite length_fmap, neighbours_length. lia.
  - intros m w request (w1 & Hclear & Hst & Hf & Hdropped)%clear_serving.
    exists w1. split; [done|]. split; [done|]. split; [done|].
    unfold search_documents, or_500, try_except, bind.
    by rewrite (dropped_search distance w1 _ _ Hdropped).
Qed.

End Search.

(** The pipeline on the two sections: the one asked for by its own text
    comes first with score 1, the other follows with score 1/2. *)
Example search_ranks_the_matching_section :
  (λ r, (SearchResult.doc_id r, Qred (SearchResult.score r), SearchResult.tags r))
    <$> match (search_documents same_text_distance whole_number
                 (MkSearchRequest (py "other text") 3) indexed_world).1 with
        | Ok response => results response
        | Raise _ => []
        end
  = [(py "d2", 1%Q, []); (py "d1", (1 # 2)%Q, [py "alpha"; py "beta"])].
Proof. computed. Qed.

(** A stored metadata key named "score" takes the place of the computed
    score in the row, and the route reads the numeric string as a number. *)
Example search_returns_a_stored_score :
  add_chunks [shadowing_chunk] fresh_world = (Ok tt, shadowed_world)
  ∧ (λ r : gmap string pyval, r !! "score")
      <$> match (search same_text_distance (py "some text") 1 shadowed_world).1 with
          | Ok rows => rows
          | Raise _ => []
          end
    = [Some (VStr (py "7"))]
  ∧ SearchResult.score
      <$> match (search_documents same_text_distance whole_number
                   (MkSearchRequest (py "some text") 1) shadowed_world).1 with
          | Ok response => results response
          | Raise _ => []
          end
    = [inject_Z 7].
Proof. split_and!; computed. Qed.


(** [search_is_clamped] on an empty store with limit 0, on the store of
    two chunks with limit 10, and on that store once it has been cleared. *)
Lemma search_is_clamped_witness :
  (∃ w', search_documents same_text_distance whole_number
           (MkSearchRequest (py "q") 0) fresh_world
         = (Ok (MkSearchResponse [] (py "q")), w'))
  ∧ (∃ rows w', search same_text_distance (py "q") 10 indexed_world = (Ok rows, w')
                ∧ length rows = 2%nat)
  ∧ (∃ w1, clear indexed_world = (Ok tt, w1) ∧ stored w1 = None ∧ faults w1 = []
           ∧ search_documents same_text_distance whole_number
               (MkSearchRequest (py "q") 3) w1
             = (Raise (HTTPException 500 AssertionError), w1)).
Proof.
  assert (Hserving : serving (default ∅ (stored indexed_world)) indexed_world).
  { split; [computed|]. right.
    split; [exists PersistentClientHandle; computed|].
    split; [exists (CollectionHandle settings.collection_name); computed|].
    computed. }
  split; [|split].
  - apply (proj1 (search_is_clamped same_text_distance whole_number) fresh_world
             (MkSearchRequest (py "q") 0)).
    split; [reflexivity|]. left. split; reflexivity.
  - destruct (proj1 (proj2 (search_is_clamped same_text_distance whole_number))
                (default ∅ (stored indexed_world)) indexed_world (py "q") 10)
      as (rows & w' & H & _ & _ & Hlen).
    + exact Hserving.
    + apply Nat.ltb_lt. computed.
    + lia.
    + exists rows, w'. split; [exact H|]. rewrite Hlen.
      * computed.
      * apply Z.leb_le. computed.
  - apply (proj2 (proj2 (search_is_clamped same_text_distance whole_number))
             (default ∅ (stored indexed_world)) indexed_world
             (MkSearchRequest (py "q") 3)).
    exact Hserving.
Defined.

(** * Further properties *)

(** ** Tags *)

Lemma split_segments_free (c : Z) (s : list Z) : Forall (λ t, c ∉ t) (split c s).
Proof.
  induction s as [|x s IH]; simpl.
  - repeat constructor. apply not_elem_of_nil.
  - case_decide as Hx.
    + constructor; [apply not_elem_of_nil|done].
    + destruct (split c s) as [|t ts].
      { repeat constructor. apply not_elem_of_cons. split; [congruence|].
        apply not_elem_of_nil. }
      apply Forall_cons in IH as [Ht Hts]. constructor; [|done].
      apply not_elem_of_cons. split; [congruence|done].
Qed.

Lemma tags_split_clean (s : list Z) :
  Forall (λ t, t ≠ [] ∧ 44 ∉ t) (tags_split s).
Proof.
  unfold tags_split. pose proof (split_segments_free 44 s) as H.
  induction H as [|t ts Ht _ IH]; [constructor|].
  destruct (decide (t = [])) as [->|Hne].
  - by rewrite filter_cons_False by (intros ?; done).
  - rewrite filter_cons_True by done. by constructor.
Qed.

(** The stored form of a tag list reads back as the same list exactly when
    no tag is empty and no tag contains a comma; what is read back never has
    an empty tag or a comma in a tag. *)
Theorem tags_round_trip_iff (tags : list (list Z)) :
  (tags_split (tags_join tags) = tags ↔ Forall (λ t, t ≠ [] ∧ 44 ∉ t) tags)
  ∧ Forall (λ t, t ≠ [] ∧ 44 ∉ t) (tags_split (tags_join tags)).
Proof.
  split; [|apply tags_split_clean]. split.
  - intros H. rewrite <- H. apply tags_split_clean.
  - apply tags_split_join.
Qed.

(** ** Format of chunk ids *)

Lemma le_bytes_length n x : length (MD5.le_bytes n x) = n.
Proof. revert x. induction n as [|n IH]; intros x; simpl; [done|]. by rewrite IH. Qed.

Lemma le_bytes_range n x : Forall (λ b, 0 ≤ b < 256) (MD5.le_bytes n x).
Proof.
  revert x. induction n as [|n IH]; intros x; simpl; constructor; [|done].
  apply Z.mod_pos_bound. lia.
Qed.

Lemma digest_bytes (msg : list Z) :
  length (MD5.digest msg) = 16%nat ∧ Forall (λ b, 0 ≤ b < 256) (MD5.digest msg).
Proof.
  unfold MD5.digest.
  destruct (foldl MD5.block MD5.init _) as [[[a b] c] d].
  split.
  - by rewrite !length_app, !le_bytes_length.
  - repeat (apply Forall_app; split); apply le_bytes_range.
Qed.

Lemma hex_digit_char (n : Z) : 0 ≤ n < 16 → hex_char (MD5.hex_digit n).
Proof. unfold MD5.hex_digit, hex_char. intros. case_decide; lia. Qed.

Lemma hex_pairs_format (l : list Z) :
  Forall (λ b, 0 ≤ b < 256) l →
  length (l ≫= λ b, [MD5.hex_digit (b / 16); MD5.hex_digit (b mod 16)])
  = (2 * length l)%nat
  ∧ Forall hex_char (l ≫= λ b, [MD5.hex_digit (b / 16); MD5.hex_digit (b mod 16)]).
Proof.
  induction 1 as [|b l Hb Hl [IH1 IH2]]; simpl in *; [by split|].
  split; [unfold mbind in IH1; lia|].
  constructor; [|constructor; [|exact IH2]]; apply hex_digit_char.
  - split; [apply Z.div_pos; lia|apply Z.div_lt_upper_bound; lia].
  - apply Z.mod_pos_bound. lia.
Qed.

Lemma hexdigest_format (msg : list Z) :
  length (MD5.hexdigest msg) = 32%nat ∧ Forall hex_char (MD5.hexdigest msg).
Proof.
  unfold MD5.hexdigest. destruct (digest_bytes msg) as [Hlen Hall].
  destruct (hex_pairs_format _ Hall) as [H1 H2]. split; [|done].
  rewrite H1, Hlen. done.
Qed.

(** A chunk id, when [_chunk_id] returns one, is 32 lower-case hexadecimal
    digits. *)
Theorem chunk_id_format (doc_id section_id : list Z) (idx : nat) (id : list Z) :
  _chunk_id doc_id section_id idx = Ok id →
  length id = 32%nat ∧ Forall hex_char id.
Proof.
  unfold _chunk_id. destruct (encode_utf8 _) as [bytes|]; [|done].
  intros [= <-]. apply hexdigest_format.
Qed.

Lemma chunk_id_format_witness :
  _chunk_id (py "doc_001") (py "sec_001") 0 = Ok (py "9a8d140574ef0f024504a70ff2949437")
  ∧ length (py "9a8d140574ef0f024504a70ff2949437") = 32%nat
  ∧ Forall hex_char (py "9a8d140574ef0f024504a70ff2949437").
Proof.
  assert (H : _chunk_id (py "doc_001") (py "sec_001") 0
              = Ok (py "9a8d140574ef0f024504a70ff2949437")) by computed.
  split; [exact H|]. exact (chunk_id_format _ _ _ _ H).
Defined.

(** ** Ids of different triples *)

(** Two triples that differ in a component, with document ids that contain
    no colon, have different keys and different UTF-8 encodings: their ids
    are the MD5 digests of two different byte strings, so they can coincide
    only where MD5 maps those two strings to one digest. *)
Theorem distinct_triples_hash_distinct_keys
    (d s d' s' : list Z) (i i' : nat) (bytes bytes' : list Z) :
  58 ∉ d → 58 ∉ d' →
  (d, s, i) ≠ (d', s', i') →
  encode_utf8 (chunk_key d s i) = Some bytes →
  encode_utf8 (chunk_key d' s' i') = Some bytes' →
  chunk_key d s i ≠ chunk_key d' s' i'
  ∧ bytes ≠ bytes'
  ∧ _chunk_id d s i = Ok (MD5.hexdigest bytes)
  ∧ _chunk_id d' s' i' = Ok (MD5.hexdigest bytes').
Proof.
  intros Hd Hd' Hne Hb Hb'.
  assert (Hkey : chunk_key d s i ≠ chunk_key d' s' i').
  { intros Hkey. apply chunk_key_inj in Hkey as (-> & -> & ->); done. }
  split; [done|]. split.
  - intros ->. apply Hkey. by eapply encode_utf8_inj.
  - unfold _chunk_id. by rewrite Hb, Hb'.
Qed.

Lemma distinct_triples_hash_distinct_keys_witness :
  chunk_key (py "doc_001") (py "sec::1") 0 ≠ chunk_key (py "doc_001") (py "sec::1") 1
  ∧ _chunk_id (py "doc_001") (py "sec::1") 0
    = Ok (py "9b3e5163a8db54d7159323dca0a2d64e")
  ∧ _chunk_id (py "doc_001") (py "sec::1") 1
    = Ok (py "f4ec61676ffa6cd439548e7e5429f702").
Proof.
  destruct (distinct_triples_hash_distinct_keys
              (py "doc_001") (py "sec::1") (py "doc_001") (py "sec::1") 0 1
              (chunk_key (py "doc_001") (py "sec::1") 0)
              (chunk_key (py "doc_001") (py "sec::1") 1))
    as (Hkey & _ & H0 & H1).
  - apply (bool_decide_unpack _). vm_compute. exact I.
  - apply (bool_decide_unpack _). vm_compute. exact I.
  - intros [=].
  - reflexivity.
  - reflexivity.
  - split; [exact Hkey|]. split.
    + rewrite H0. computed.
    + rewrite H1. computed.
Defined.

(** ** Initialisation *)

(** What [_ensure_ready] does to a service without a client. *)
Lemma ensure_ready_effect (w : World) :
  _client w = None →
  match _ensure_ready w with
  | (Ok _, w1) =>
      _client w1 = Some PersistentClientHandle
      ∧ _collection w1 = Some (CollectionHandle settings.collection_name)
      ∧ stored w1 = Some (default ∅ (stored w))
  | (Raise _, w1) =>
      stored w1 = stored w ∧ _collection w1 = _collection w
      ∧ (_client w1 = None ∨ _client w1 = Some PersistentClientHandle)
  end.
Proof.
  intros Hc. unfold _ensure_ready, bind, get. rewrite Hc. run.
  pose proof (external_call_handles w) as (Ha1 & Ha2 & Ha3).
  destruct (external_call w) as [[[]|e] wa]; simpl in *;
    [|by rewrite Ha2, Ha3, Ha1, Hc; auto].
  pose proof (external_call_handles (set_client (Some PersistentClientHandle) wa))
    as (Hb1 & Hb2 & Hb3).
  destruct (external_call _) as [[[]|e] wb]; simpl in *;
    [|by rewrite Hb2, Hb3, Hb1, Ha2, Ha3; auto].
  pose proof (external_call_handles wb) as (Hc1 & Hc2 & Hc3).
  destruct (external_call wb) as [[[]|e] wc]; simpl in *;
    [|by rewrite Hc2, Hc3, Hc1, Hb2, Hb3, Hb1, Ha2, Ha3; auto].
  destruct (stored wc) as [m|] eqn:Hm; simpl;
    rewrite ?Hm, Hc1, Hb1, <- Ha3, <- Hb3, <- Hc3; auto.
Qed.

(** When [_ensure_ready] has returned once, the collection handle and the
    collection exist, with the entries the store already held, and every
    later call returns at once without touching the store, pending faults
    or not. *)
Theorem ensure_ready_once (w w1 : World) :
  _client w = None →
  _ensure_ready w = (Ok tt, w1) →
  is_Some (_client w1) ∧ is_Some (_collection w1)
  ∧ stored w1 = Some (default ∅ (stored w))
  ∧ ∀ pending, _ensure_ready (set_faults pending w1)
               = (Ok tt, set_faults pending w1).
Proof.
  intros Hc H. pose proof (ensure_ready_effect w Hc) as He. rewrite H in He.
  destruct He as (H1 & H2 & H3). rewrite H1, H2. split_and!; [by eexists..|done|].
  intros pending. apply ensure_ready_with_client. simpl. by rewrite H1.
Qed.

Lemma ensure_ready_once_witness :
  let w := MkWorld None None None [] in
  let w1 := MkWorld (Some PersistentClientHandle)
              (Some (CollectionHandle settings.collection_name)) (Some ∅) [] in
  _ensure_ready w = (Ok tt, w1)
  ∧ _ensure_ready (set_faults [Some (Fault 1)] w1)
    = (Ok tt, set_faults [Some (Fault 1)] w1).
Proof.
  intros w w1.
  destruct (ensure_ready_once w w1 eq_refl eq_refl) as (_ & _ & _ & H).
  split; [reflexivity|apply H].
Defined.

Section Service.

Context (distance : list Z → list Z → Q) (split_text : list Z → list (list Z))
  (float_of_str : list Z → option Q).

(** When initialisation fails after the client was created (the embedding
    function or the collection could not be set up), it is not tried again:
    the probe answers [False] after every further sequence of calls, and
    [count] fails its assertion. *)
Theorem failed_initialisation_is_final (w w1 : World) (e : exn) :
  _client w = None → _collection w = None →
  _ensure_ready w = (Raise e, w1) →
  is_Some (_client w1) →
  count w1 = (Raise AssertionError, w1)
  ∧ ∀ calls, is_ready (after_all distance split_text float_of_str calls w1)
             = (Ok false, after_all distance split_text float_of_str calls w1).
Proof.
  intros Hc Hcol H Hc1. pose proof (ensure_ready_effect w Hc) as He.
  rewrite H in He. destruct He as (_ & Hcol1 & _).
  assert (Hd : dropped w1) by (split; [done|congruence]).
  split; [by apply dropped_count|].
  intros calls. apply dropped_is_ready. by apply dropped_after_all.
Qed.

End Service.

Lemma failed_initialisation_is_final_witness :
  let w := MkWorld None None None [None; Some (Fault 7)] in
  let w1 := MkWorld (Some PersistentClientHandle) None None [] in
  _ensure_ready w = (Raise (Fault 7), w1)
  ∧ count w1 = (Raise AssertionError, w1)
  ∧ is_ready (after_all same_text_distance one_piece whole_number
                [Count; HealthCheck] w1)
    = (Ok false, after_all same_text_distance one_piece whole_number
                   [Count; HealthCheck] w1).
Proof.
  intros w w1.
  destruct (failed_initialisation_is_final same_text_distance one_piece whole_number w w1
              (Fault 7) eq_refl eq_refl eq_refl) as [H1 H2]; [by eexists|].
  split; [reflexivity|]. split; [exact H1|apply H2].
Defined.

(** ** [clear] *)

(** With no store fault pending, the clear route succeeds exactly when the
    service has no client yet or the collection exists in the store: it
    answers [cleared = true], deletes the collection, empty or not, and
    leaves the service with its client and no collection handle.  With a
    client and no collection in the store, as after a first [clear], it
    answers with status 500: the collection to delete is not there. *)
Theorem clear_deletes_the_collection (w : World) :
  faults w = [] →
  (_client w = None ∨ is_Some (stored w) →
   ∃ w', clear_documents w = (Ok (MkClearResponse true), w')
         ∧ stored w' = None ∧ dropped w')
  ∧ (is_Some (_client w) → stored w = None →
     clear_documents w = (Raise (HTTPException 500 CollectionNotFound), w)).
Proof.
  intros Hf. split.
  - intros Hpre.
    assert (∃ w0 m, _ensure_ready w = (Ok tt, w0) ∧ faults w0 = []
                    ∧ stored w0 = Some m) as (w0 & m & Hready & Hf0 & Hm).
    { destruct (_client w) as [c|] eqn:Hc.
      - destruct Hpre as [?|[m Hm]]; [done|]. exists w, m.
        rewrite ensure_ready_with_client by (rewrite Hc; by eexists). done.
      - destruct (ensure_ready_serving (default ∅ (stored w)) w)
          as (w0 & ? & ? & _ & ?); [split; [done|]; by left|].
        by exists w0, (default ∅ (stored w)). }
    pose proof (ensure_ready_client w w0 Hready) as Hc0.
    unfold clear_documents, or_500, try_except, bind.
    rewrite (clear_after_ready w w0 Hready), (clear_quiet w0 Hf0 Hc0), Hm.
    unfold ret. eexists. split; [reflexivity|]. split; [reflexivity|].
    split; [exact Hc0|reflexivity].
  - intros Hc Hst. unfold clear_documents, or_500, try_except, bind.
    by rewrite (clear_quiet w Hf Hc), Hst.
Qed.

Lemma clear_deletes_the_collection_witness :
  (∃ w', clear_documents indexed_world = (Ok (MkClearResponse true), w')
         ∧ stored w' = None ∧ dropped w')
  ∧ (∃ w', clear_documents fresh_world = (Ok (MkClearResponse true), w')
           ∧ stored w' = None ∧ dropped w')
  ∧ clear_documents cleared_world
    = (Raise (HTTPException 500 CollectionNotFound), cleared_world).
Proof.
  split; [|split].
  - apply (proj1 (clear_deletes_the_collection indexed_world eq_refl)).
    right. exists (default ∅ (stored indexed_world)). computed.
  - apply (proj1 (clear_deletes_the_collection fresh_world eq_refl)).
    by left.
  - apply (proj2 (clear_deletes_the_collection cleared_world eq_refl));
      [exists PersistentClientHandle; reflexivity|reflexivity].
Defined.

(** ** Statistics *)

Lemma distinct_length (l : list pyval) : (length (distinct l) ≤ length l)%nat.
Proof.
  induction l as [|x l IH]; simpl; [done|].
  destruct (existsb _ l); simpl; lia.
Qed.

Lemma distinct_nonempty (l : list pyval) : l ≠ [] → distinct l ≠ [].
Proof.
  induction l as [|x l IH]; [done|]. intros _. simpl.
  destruct (existsb _ l) eqn:Hex; [|done].
  apply IH. by destruct l.
Qed.

Lemma collection_count_effect (w : World) :
  match collection_count w with
  | (Ok n, w') =>
      ∃ m, stored w = Some m ∧ n = Z.of_nat (size m) ∧ stored w' = stored w
           ∧ _client w' = _client w ∧ _collection w' = _collection w
  | (Raise _, w') =>
      stored w' = stored w ∧ _client w' = _client w
      ∧ _collection w' = _collection w
  end.
Proof.
  unfold collection_count, the_collection, bind, get, ret, raise.
  pose proof (external_call_handles w) as (H1 & H2 & H3).
  destruct (external_call w) as [[[]|e] w1]; simpl in *; [|done].
  destruct (stored w1) as [m|] eqn:Hm; simpl; [|by rewrite Hm].
  exists m. by rewrite <- H3, Hm.
Qed.

Lemma unique_doc_count_effect (w w1 : World) (n : Z) :
  unique_doc_count w = (Ok n, w1) →
  ∃ m, stored w1 = Some m ∧ is_Some (_client w1)
       ∧ 0 ≤ n ≤ Z.of_nat (size m) ∧ (n = 0 ↔ size m = 0%nat).
Proof.
  unfold unique_doc_count, bind, get.
  destruct (_ensure_ready w) as [[[]|e] w0] eqn:Hready; [|done].
  apply ensure_ready_client in Hready.
  destruct (_collection w0) as [col|]; unfold assert_not_None, ret, raise;
    cbv beta iota; [|done].
  pose proof (collection_count_effect w0) as Hcount.
  destruct (collection_count w0) as [[k|e] wa]; [|done].
  destruct Hcount as (m & Hm & -> & Hsa & Hca & _).
  case_decide as Hz.
  - intros [= <- <-]. exists m. rewrite Hsa, Hca. split_and!; [done..|lia|lia|].
    split; lia.
  - unfold collection_get_metadatas, the_collection, bind, get, ret, raise.
    pose proof (external_call_handles wa) as (Hb1 & _ & Hb3).
    destruct (external_call wa) as [[[]|e] wb]; simpl in *; [|done].
    rewrite Hb3, Hsa, Hm. cbv beta iota.
    destruct (forallb hashable _); [|done]. intros [= <- <-].
    exists m. rewrite Hb3, Hsa, Hb1, Hca. split; [done|]. split; [done|].
    set (ids := (λ m0 : gmap string pyval, default (VStr []) (m0 !! "doc_id"))
                  <$> ((λ r, metadata r.2) <$> map_to_list m)).
    pose proof (distinct_length ids) as Hlen.
    assert (Hids : length ids = size m)
      by (unfold ids; by rewrite !length_fmap, length_map_to_list).
    assert (Hne : distinct ids ≠ []).
    { apply distinct_nonempty. intros Hnil. rewrite Hnil in Hids. simpl in Hids. lia. }
    assert (0 < length (distinct ids))%nat by (destruct (distinct ids); simpl; [done|lia]).
    split; [lia|]. split; lia.
Qed.

Lemma count_effect (w w' : World) (k : Z) (m : gmap (list Z) entry) :
  is_Some (_client w) → stored w = Some m →
  count w = (Ok k, w') → k = Z.of_nat (size m).
Proof.
  intros Hc Hm. unfold count, bind, get.
  rewrite ensure_ready_with_client by done.
  destruct (_collection w) as [col|]; unfold assert_not_None, ret, raise;
    cbv beta iota; [|done].
  pose proof (collection_count_effect w) as Hcount.
  destruct (collection_count w) as [[k'|e] wa]; [|done].
  destruct Hcount as (m' & Hm' & -> & _). intros [= <- <-]. congruence.
Qed.

(** When [get_stats] answers, the number of documents is at most the number
    of chunks, it is zero exactly when there are no chunks, and the
    collection name is "vault_documents". *)
Theorem stats_counts (w w' : World) (response : StatsResponse) :
  get_stats w = (Ok response, w') →
  0 ≤ doc_count response ≤ chunk_count response
  ∧ (doc_count response = 0 ↔ chunk_count response = 0)
  ∧ stats_collection_name response = "vault_documents".
Proof.
  unfold get_stats, or_500, try_except, bind.
  destruct (unique_doc_count w) as [[n|e] w1] eqn:Hu; [|done].
  destruct (count w1) as [[k|e] w2] eqn:Hk; [|done].
  unfold ret. intros [= <- <-]. simpl.
  apply unique_doc_count_effect in Hu as (m & Hm & Hc & Hn & Hz).
  apply (count_effect w1 w2 k m Hc Hm) in Hk as ->.
  split; [done|]. split; [|done]. rewrite Hz. lia.
Qed.

Lemma stats_counts_witness :
  get_stats indexed_world = (Ok (MkStatsResponse 2 2 "vault_documents"), indexed_world)
  ∧ 0 ≤ 2 ≤ 2.
Proof.
  assert (H : get_stats indexed_world
              = (Ok (MkStatsResponse 2 2 "vault_documents"), indexed_world))
    by computed.
  split; [exact H|]. exact (proj1 (stats_counts _ _ _ H)).
Defined.

(** ** Missing keys in [add_chunks] *)

Lemma sequence_getitem_missing (key : string) (chunks : list (gmap string pyval)) :
  Exists (λ c, c !! key = None) chunks →
  sequence ((λ c : gmap string pyval, getitem c key) <$> chunks)
  = Raise (KeyError key).
Proof.
  induction 1 as [c cs Hc|c cs Hcs IH]; rewrite fmap_cons; cbn [sequence].
  - unfold getitem at 1. by rewrite Hc.
  - rewrite IH. unfold getitem. by destruct (c !! key).
Qed.

(** A chunk without an "id" makes [add_chunks] raise [KeyError] before
    anything is written: the collection is opened if need be, and keeps the
    entries it had. *)
Theorem add_chunks_without_id (m : gmap (list Z) entry) (w : World)
    (chunks : list (gmap string pyval)) :
  serving m w →
  Exists (λ c, c !! "id" = None) chunks →
  ∃ w1, add_chunks chunks w = (Raise (KeyError "id"), w1) ∧ stored w1 = Some m.
Proof.
  intros (w1 & Hready & Hf & [col Hcol] & Hm)%ensure_ready_serving Hmissing.
  exists w1. split; [|done].
  destruct chunks as [|c cs]; [by apply Exists_nil in Hmissing|].
  unfold add_chunks. cbv beta iota zeta. unfold bind, get, lift.
  rewrite Hready, Hcol. unfold assert_not_None, ret. cbv beta iota.
  by rewrite (sequence_getitem_missing "id" (c :: cs) Hmissing).
Qed.

Lemma add_chunks_without_id_witness :
  ∃ w1, add_chunks [{["content" := VStr (py "text")]}] fresh_world
        = (Raise (KeyError "id"), w1)
        ∧ stored w1 = Some ∅.
Proof.
  apply (add_chunks_without_id ∅ fresh_world).
  - split; [reflexivity|]. left. split; reflexivity.
  - constructor. reflexivity.
Defined.

(** ** Order and numbering of chunks *)

Lemma sequence_lookup {A B} (f : nat → A → outcome B) (l : list A) (out : list B) :
  sequence (imap f l) = Ok out →
  length out = length l
  ∧ ∀ i b, out !! i = Some b → ∃ a, l !! i = Some a ∧ f i a = Ok b.
Proof.
  revert f out. induction l as [|a l IH]; intros f out; simpl.
  - intros [= <-]. split; [done|]. intros i b. by rewrite lookup_nil.
  - destruct (f 0%nat a) as [b0|] eqn:Hb0; simpl; [|done].
    destruct (sequence (imap (f ∘ S) l)) as [rest|] eqn:Hrest; simpl; [|done].
    intros [= <-]. destruct (IH _ _ Hrest) as [Hlen Hall].
    split; [simpl; by rewrite Hlen|].
    intros [|i] b; simpl; [intros [= <-]; by exists a|]. apply Hall.
Qed.

Lemma sequence_Raise {A} (l : list (outcome A)) (e : exn) :
  sequence l = Raise e → Raise e ∈ l.
Proof.
  induction l as [|o l IH]; simpl; [done|].
  destruct o as [a|e']; simpl; [|intros [= ->]; by left].
  destruct (sequence l) as [rest|e']; simpl; [done|].
  intros [= ->]. right. by apply IH.
Qed.

Lemma chunk_dict_lookup (d : DocDict.t) (sid : list Z) (idx : nat)
    (text : list Z) (c : gmap string pyval) :
  chunk_dict d sid idx text = Ok c →
  ∃ doc_id id filename,
    DocDict.doc_id d = Some doc_id
    ∧ DocDict.filename d = Some filename
    ∧ _chunk_id doc_id sid idx = Ok id
    ∧ c !! "id" = Some (VStr id)
    ∧ c !! "content" = Some (VStr text)
    ∧ c !! "doc_id" = Some (VStr doc_id)
    ∧ c !! "filename" = Some (VStr filename)
    ∧ c !! "section_id" = Some (VStr sid)
    ∧ c !! "score" = None
    ∧ (∀ k v, c !! k = Some v → ∃ s, v = VStr s).
Proof.
  intros (doc_id & id & filename & Hd & Hid & Hf & ->)%chunk_dict_fields.
  exists doc_id, id, filename. split_and!; try done.
  intros k v. simpl.
  repeat (rewrite lookup_insert; case_decide; [intros [= <-]; by eexists|]).
  by rewrite lookup_empty.
Qed.

Section Chunks.

Context (split_text : list Z → list (list Z)).

(** The chunks of one document are numbered from 0: the chunk at position
    [i] carries the [i]-th piece of the stripped content and the id of the
    document id, the effective section id and [i]. *)
Theorem chunks_are_numbered_per_document
    (doc : section_doc) (out : list (gmap string pyval)) :
  chunks_of_document split_text doc = Ok out →
  length out = length (pieces split_text doc)
  ∧ ∀ i c, out !! i = Some c →
      ∃ text doc_id id,
        pieces split_text doc !! i = Some text
        ∧ DocDict.doc_id (as_dict doc) = Some doc_id
        ∧ _chunk_id doc_id (effective_section_id (as_dict doc)) i = Ok id
        ∧ c !! "id" = Some (VStr id)
        ∧ c !! "content" = Some (VStr text).
Proof.
  unfold chunks_of_document, pieces.
  destruct (strip _) as [|c0 content].
  - intros [= <-]. split; [done|]. intros i c. by rewrite lookup_nil.
  - intros [Hlen Hall]%sequence_lookup. split; [done|].
    intros i c (text & Htext & Hc)%Hall.
    apply chunk_dict_lookup in Hc
      as (doc_id & id & filename & Hd & _ & Hid & Hcid & Hcc & _).
    by exists text, doc_id, id.
Qed.

Lemma chunks_of_document_contents (doc : section_doc) (out : list (gmap string pyval)) :
  chunks_of_document split_text doc = Ok out →
  (λ c : gmap string pyval, c !! "content") <$> out
  = (λ t, Some (VStr t)) <$> pieces split_text doc.
Proof.
  unfold chunks_of_document, pieces.
  destruct (strip _) as [|c0 content]; [by intros [= <-]|].
  intros [Hlen Hall]%sequence_lookup.
  apply list_eq. intros i. rewrite !list_lookup_fmap.
  destruct (out !! i) as [c|] eqn:Hc; simpl.
  - destruct (Hall i c Hc) as (text & -> & Hdict).
    apply chunk_dict_lookup in Hdict as (? & ? & ? & _ & _ & _ & _ & -> & _). done.
  - apply lookup_ge_None in Hc. rewrite Hlen in Hc.
    apply lookup_ge_None in Hc. by rewrite Hc.
Qed.

Lemma prepare_chunks_contents
    (documents : list section_doc) (chunks : list (gmap string pyval)) :
  prepare_chunks split_text documents = Ok chunks →
  (λ c : gmap string pyval, c !! "content") <$> chunks
  = (λ t, Some (VStr t)) <$> (documents ≫= pieces split_text).
Proof.
  revert chunks. induction documents as [|doc rest IH]; simpl; intros chunks.
  - by intros [= <-].
  - destruct (chunks_of_document split_text doc) as [out|] eqn:Hout; simpl; [|done].
    destruct (prepare_chunks split_text rest) as [more|]; simpl; [|done].
    intros [= <-]. rewrite !fmap_app.
    by rewrite (chunks_of_document_contents doc out Hout), (IH more).
Qed.

Lemma prepare_chunks_length
    (documents : list section_doc) (chunks : list (gmap string pyval)) :
  prepare_chunks split_text documents = Ok chunks →
  length chunks = length (documents ≫= pieces split_text).
Proof.
  intros H%prepare_chunks_contents. apply (f_equal length) in H.
  by rewrite !length_fmap in H.
Qed.

(** The chunks follow the order of the documents, and within a document the
    order of its pieces; blank documents contribute nothing, and nothing is
    merged or dropped: there are as many chunks as pieces. *)
Theorem prepared_contents_in_order
    (documents : list section_doc) (chunks : list (gmap string pyval)) :
  prepare_chunks split_text documents = Ok chunks →
  length chunks = length (documents ≫= pieces split_text)
  ∧ ∀ i, chunks !! i ≫= (.!! "content")
         = (λ t, VStr t) <$> (documents ≫= pieces split_text) !! i.
Proof.
  intros H. split; [by apply prepare_chunks_length|].
  apply prepare_chunks_contents in H. intros i.
  apply (f_equal (.!! i)) in H. rewrite !list_lookup_fmap in H.
  destruct (chunks !! i) as [c|], ((documents ≫= pieces split_text) !! i) as [t|];
    simpl in *; congruence.
Qed.

End Chunks.

Lemma chunks_are_numbered_per_document_witness :
  length word_chunks = 2%nat
  ∧ ∃ c text id,
      word_chunks !! 1%nat = Some c
      ∧ pieces words two_words !! 1%nat = Some text
      ∧ text = py "world"
      ∧ _chunk_id (py "d1") (py "d1_s1") 1 = Ok id
      ∧ c !! "id" = Some (VStr id)
      ∧ c !! "content" = Some (VStr text).
Proof.
  assert (H : chunks_of_document words two_words = Ok word_chunks) by computed.
  destruct (chunks_are_numbered_per_document words _ _ H) as [Hlen Hall].
  split; [rewrite Hlen; computed|].
  pose (c := default ∅ (word_chunks !! 1%nat)).
  assert (Hc : word_chunks !! 1%nat = Some c) by computed.
  destruct (Hall 1%nat c Hc) as (text & doc_id & id & Htext & Hdoc & Hid & Hcid & Hcc).
  exists c, text, id. split; [exact Hc|]. split; [exact Htext|].
  split.
  - assert (Hp : pieces words two_words !! 1%nat = Some (py "world")) by computed.
    rewrite Hp in Htext. by injection Htext as <-.
  - injection Hdoc as <-. split; [exact Hid|]. split; [exact Hcid|exact Hcc].
Defined.

Lemma prepared_contents_in_order_witness :
  length mixed_chunks = 4%nat
  ∧ ∀ i, mixed_chunks !! i ≫= (.!! "content")
         = (λ t, VStr t) <$> [py "hello"; py "world"; py "some"; py "text"] !! i.
Proof.
  assert (H : prepare_chunks words mixed_documents = Ok mixed_chunks) by computed.
  destruct (prepared_contents_in_order words _ _ H) as [Hlen Hall].
  assert (Hp : mixed_documents ≫= pieces words
               = [py "hello"; py "world"; py "some"; py "text"]) by computed.
  rewrite Hp in Hlen, Hall. split; [exact Hlen|exact Hall].
Defined.

(** ** When [prepare_chunks] raises *)

Lemma encode_utf8_app (a b : list Z) :
  encode_utf8 (a ++ b)
  = match encode_utf8 a, encode_utf8 b with
    | Some x, Some y => Some (x ++ y)
    | _, _ => None
    end.
Proof.
  induction a as [|c a IH]; simpl.
  - by destruct (encode_utf8 b).
  - rewrite IH. destruct (utf8_char c) as [bs|]; [|done].
    destruct (encode_utf8 a) as [x|]; [|done].
    destruct (encode_utf8 b) as [y|]; [|done]. by rewrite (assoc_L (++)).
Qed.

Lemma encodable_app (a b : list Z) : encodable a → encodable b → encodable (a ++ b).
Proof.
  unfold encodable. intros [x Hx] [y Hy]. rewrite encode_utf8_app, Hx, Hy. by eexists.
Qed.

Lemma encodable_bytes (l : list Z) : Forall (λ c, 0 ≤ c < 256) l → encodable l.
Proof.
  unfold encodable. induction 1 as [|c l Hc _ [x Hx]]; simpl; [by eexists|].
  rewrite Hx. unfold utf8_char. repeat case_decide; try (by eexists); lia.
Qed.

Lemma encodable_py (s : string) : encodable (py s).
Proof.
  apply encodable_bytes, Forall_fmap, Forall_forall. intros a _. simpl.
  pose proof (N_ascii_bounded a). lia.
Qed.

Lemma chunk_id_of_encodable (doc_id section_id : list Z) (idx : nat) :
  encodable doc_id → encodable section_id →
  ∃ id, _chunk_id doc_id section_id idx = Ok id.
Proof.
  intros Hd Hs. unfold _chunk_id.
  assert (H : encodable (chunk_key doc_id section_id idx)).
  { unfold chunk_key, str_of_nat.
    repeat apply encodable_app; try done; apply encodable_py. }
  destruct H as [bytes ->]. by eexists.
Qed.

Lemma sequence_of_Ok {A} (l : list (outcome A)) :
  Forall (λ o, ∃ a, o = Ok a) l → ∃ out, sequence l = Ok out.
Proof.
  induction 1 as [|o l [a ->] _ [out IH]]; simpl; [by eexists|].
  rewrite IH. by eexists.
Qed.

Section Raising.

Context (split_text : list Z → list (list Z)).

Lemma chunks_of_model_raises (doc : DocumentChunk.t) (e : exn) :
  chunks_of_document split_text (Model doc) = Raise e → e = UnicodeEncodeError.
Proof.
  unfold chunks_of_document.
  destruct (strip _) as [|c0 content]; [done|].
  intros He%sequence_Raise.
  apply elem_of_lookup_imap in He as (i & text & He & _). symmetry in He.
  unfold chunk_dict in He. simpl in He.
  destruct (_chunk_id _ _ _) as [id|e'] eqn:Hid; simpl in He; [done|].
  injection He as ->. unfold _chunk_id in Hid.
  by destruct (encode_utf8 _); simplify_eq.
Qed.

Lemma chunks_of_well_encoded (doc : DocumentChunk.t) :
  well_encoded doc → ∃ out, chunks_of_document split_text (Model doc) = Ok out.
Proof.
  intros [Hd Hs]. unfold chunks_of_document.
  destruct (strip _) as [|c0 content]; [by eexists|].
  apply sequence_of_Ok, Forall_forall.
  intros o (i & text & -> & _)%elem_of_lookup_imap.
  unfold chunk_dict. simpl.
  destruct (chunk_id_of_encodable (DocumentChunk.doc_id doc)
              (effective_section_id (model_dump doc)) i) as [id ->]; [done| |].
  - unfold effective_section_id. simpl.
    destruct (DocumentChunk.section_id doc) as [[|c s]|] eqn:Hsid; try done.
    by apply Hs.
  - simpl. by eexists.
Qed.

Lemma prepare_chunks_well_encoded (docs : list DocumentChunk.t) :
  Forall well_encoded docs →
  ∃ chunks, prepare_chunks split_text (Model <$> docs) = Ok chunks.
Proof.
  induction 1 as [|doc docs Hdoc _ [more IH]]; [by eexists|].
  rewrite fmap_cons. cbn [prepare_chunks]. rewrite IH.
  destruct (chunks_of_well_encoded doc Hdoc) as [out ->]. by eexists.
Qed.

(** On Pydantic models, [prepare_chunks] can only raise
    [UnicodeEncodeError]; it returns when every document id and section id
    can be encoded as UTF-8. *)
Theorem prepare_chunks_of_models (docs : list DocumentChunk.t) :
  (∀ e, prepare_chunks split_text (Model <$> docs) = Raise e →
        e = UnicodeEncodeError)
  ∧ (Forall well_encoded docs →
     ∃ chunks, prepare_chunks split_text (Model <$> docs) = Ok chunks).
Proof.
  split; [|apply prepare_chunks_well_encoded].
  induction docs as [|doc docs IH]; simpl; intros e; [done|].
  destruct (chunks_of_document split_text (Model doc)) as [out|e'] eqn:Hout; simpl.
  - destruct (prepare_chunks _ _) as [more|e'] eqn:Hmore; simpl; [done|].
    intros [= ->]. by apply IH.
  - intros [= ->]. by eapply chunks_of_model_raises.
Qed.

(** A dict without a "doc_id" is skipped without error when its content is
    blank; otherwise, as soon as the splitter returns a piece,
    [prepare_chunks] raises [KeyError]. *)
Theorem document_without_doc_id (d : DocDict.t) (rest : list section_doc) :
  DocDict.doc_id d = None →
  (blank (Plain d) →
   prepare_chunks split_text (Plain d :: rest) = prepare_chunks split_text rest)
  ∧ (pieces split_text (Plain d) ≠ [] →
     prepare_chunks split_text (Plain d :: rest) = Raise (KeyError "doc_id")).
Proof.
  intros Hd. split.
  - intros Hb. simpl. rewrite chunks_of_blank by done. simpl.
    by destruct (prepare_chunks split_text rest).
  - unfold pieces. simpl. unfold chunks_of_document. simpl.
    destruct (strip _) as [|c0 content]; [done|].
    destruct (split_text (c0 :: content)) as [|t ts]; [done|]. intros _.
    simpl. unfold chunk_dict at 1. by rewrite Hd.
Qed.

End Raising.

Lemma prepare_chunks_of_models_witness :
  ∃ chunks, prepare_chunks one_piece (Model <$> two_sections) = Ok chunks.
Proof.
  apply (proj2 (prepare_chunks_of_models one_piece two_sections)).
  repeat constructor; simpl; try apply encodable_py.
  - intros s [= <-]. apply encodable_py.
  - done.
Defined.

Lemma document_without_doc_id_witness :
  let d := DocDict.Make None (Some (py "a.md")) None None None
             (Some (py "text")) None in
  prepare_chunks one_piece [Plain d] = Raise (KeyError "doc_id").
Proof.
  intros d. apply (proj2 (document_without_doc_id one_piece d [] eq_refl)).
  discriminate.
Defined.

(** ** From a chunk to a search result *)

(** A chunk assembled for one piece, once stored and found again at some
    distance, is read back by [search_documents] with its document id, file
    name, section id, speaker and text; the heading is [None] when it was
    absent, [None] or empty; the tags are the split of the joined tags. *)
Theorem chunk_read_back (float_of_str : list Z → option Q) (d : DocDict.t)
    (sid : list Z) (idx : nat) (text : list Z) (c : gmap string pyval) (dist : Q) :
  chunk_dict d sid idx text = Ok c →
  ∃ doc_id filename,
    DocDict.doc_id d = Some doc_id ∧ DocDict.filename d = Some filename
    ∧ to_search_result float_of_str
        (result_row text (delete "id" (delete "content" c)) dist)
      = Ok (SearchResult.Make doc_id filename (Some sid)
              (match DocDict.heading d with
               | Some (Some (h :: hs)) => Some (h :: hs)
               | _ => None
               end)
              (default (py "unknown") (DocDict.speaker d))
              text (score_of_distance dist)
              (tags_split (tags_join (default [] (DocDict.tags d))))).
Proof.
  intros (doc_id & id & filename & Hd & _ & Hf & ->)%chunk_dict_fields.
  exists doc_id, filename. split; [done|]. split; [done|].
  destruct (DocDict.heading d) as [[[|h hs]|]|]; vm_compute; reflexivity.
Qed.

Lemma chunk_read_back_witness :
  to_search_result whole_number
    (result_row (py "some text") (delete "id" (delete "content" sparse_chunk)) 1)
  = Ok (SearchResult.Make (py "d1") (py "a.md") (Some (py "d1")) None
          (py "unknown") (py "some text") (score_of_distance 1) []).
Proof.
  destruct (chunk_read_back whole_number (as_dict sparse_document) (py "d1") 0
              (py "some text")
              sparse_chunk 1) as (doc_id & filename & Hd & Hf & H); [computed|].
  injection Hd as <-. injection Hf as <-. exact H.
Defined.

(** ** What the store holds *)

Lemma write_all_Forall (P : list Z → entry → Prop)
    (rs : list (list Z * entry)) (m : gmap (list Z) entry) :
  map_Forall P m → Forall (λ r, P r.1 r.2) rs → map_Forall P (write_all rs m).
Proof.
  unfold write_all. intros Hm Hrs. revert m Hm.
  induction Hrs as [|r rs Hr _ IH]; intros m Hm; simpl; [done|].
  apply IH. by apply map_Forall_insert_2.
Qed.

Lemma write_all_size (rs : list (list Z * entry)) (m : gmap (list Z) entry) :
  (size m ≤ size (write_all rs m) ≤ size m + length rs)%nat.
Proof.
  unfold write_all. revert m. induction rs as [|r rs IH]; intros m; simpl; [lia|].
  specialize (IH (<[r.1:=r.2]> m)).
  destruct (m !! r.1) eqn:Hr.
  - rewrite map_size_insert_Some in IH by done. lia.
  - rewrite map_size_insert_None in IH by done. lia.
Qed.

Lemma write_all_keeps_ids (rs : list (list Z * entry)) (m : gmap (list Z) entry)
    (id : list Z) :
  is_Some (m !! id) → is_Some (write_all rs m !! id).
Proof.
  unfold write_all. revert m. induction rs as [|r rs IH]; intros m Hm; simpl; [done|].
  apply IH. rewrite lookup_insert. case_decide; [by eexists|done].
Qed.

Lemma zip_records_metadata ids docs metas rs :
  zip_records ids docs metas = Ok rs →
  length rs = length metas ∧ Forall (λ r, metadata r.2 ∈ metas) rs.
Proof.
  revert docs metas rs.
  induction ids as [|i ids IH]; intros [|d docs] [|m metas] rs; simpl; try done.
  - by intros [= <-].
  - destruct (as_str d) as [d'|]; simpl; [|done].
    destruct (valid_metadata m); [|done].
    destruct (zip_records ids docs metas) as [rest|] eqn:Hrest; simpl; [|done].
    intros [= <-]. destruct (IH _ _ _ Hrest) as [Hlen Hall].
    split; [simpl; by rewrite Hlen|].
    constructor; [by left|]. eapply Forall_impl; [done|]. intros ? ?. by right.
Qed.

Lemma records_metadata ids docs metas rs :
  records ids docs metas = Ok rs →
  length rs = length metas ∧ Forall (λ r, metadata r.2 ∈ metas) rs.
Proof.
  unfold records. destruct (sequence _) as [ids'|]; simpl; [|done].
  case_bool_decide; [|done]. apply zip_records_metadata.
Qed.

(** The chunks [prepare_chunks] returns are all built by [chunk_dict]. *)
Lemma prepared_chunk_shape split_text documents chunks :
  prepare_chunks split_text documents = Ok chunks →
  Forall (λ c, ∃ d sid idx text, chunk_dict d sid idx text = Ok c) chunks.
Proof.
  revert chunks. induction documents as [|doc rest IH]; simpl; intros chunks.
  - intros [= <-]. constructor.
  - destruct (chunks_of_document split_text doc) as [out|] eqn:Hout; simpl; [|done].
    destruct (prepare_chunks split_text rest) as [more|]; simpl; [|done].
    intros [= <-]. apply Forall_app. split; [|by apply IH].
    unfold chunks_of_document in Hout.
    destruct (strip _); [injection Hout as <-; constructor|].
    apply sequence_Ok in Hout. eapply Forall_impl; [done|].
    intros c (i & text & Hc & _)%elem_of_lookup_imap. by eexists _, _, _, _.
Qed.

Lemma chunk_metadata_indexed d sid idx text c doc :
  chunk_dict d sid idx text = Ok c →
  indexed_entry (Entry doc (delete "id" (delete "content" c))).
Proof.
  intros (doc_id & id & filename & _ & _ & _ & _ & _ & Hd & Hf & _ & Hscore & Hall)
    %chunk_dict_lookup.
  unfold indexed_entry. simpl. split_and!.
  - intros k v [_ [_ Hk]%lookup_delete_Some]%lookup_delete_Some. by eapply Hall.
  - exists (VStr doc_id). by rewrite !lookup_delete_ne.
  - exists (VStr filename). by rewrite !lookup_delete_ne.
  - rewrite lookup_delete_ne by done. apply lookup_delete_eq.
  - by rewrite !lookup_delete_ne.
Qed.

(** ** Indexing into a reachable store *)

Lemma indexed_entry_valid (e : entry) :
  indexed_entry e → valid_metadata (metadata e) = true.
Proof.
  intros (Hall & [v Hv] & _). unfold valid_metadata. apply andb_true_iff. split.
  - apply negb_true_iff, Nat.eqb_neq. intros Hz%map_size_empty_iff.
    rewrite Hz in Hv. by rewrite lookup_empty in Hv.
  - apply bool_decide_eq_true. intros k x Hk. by destruct (Hall k x Hk) as [s ->].
Qed.

Lemma sequence_strings (ids : list (list Z)) :
  sequence (as_str <$> (VStr <$> ids)) = Ok ids.
Proof.
  induction ids as [|i ids IH]; [done|]. rewrite !fmap_cons. simpl. by rewrite IH.
Qed.

Lemma shaped_records (chunks : list (gmap string pyval)) :
  Forall (λ c, ∃ d sid idx text, chunk_dict d sid idx text = Ok c) chunks →
  ∃ docs rs,
    sequence ((λ c : gmap string pyval, getitem c "id") <$> chunks)
    = Ok (VStr <$> chunk_ids chunks)
    ∧ sequence ((λ c : gmap string pyval, getitem c "content") <$> chunks) = Ok docs
    ∧ zip_records (chunk_ids chunks) docs
        ((λ c : gmap string pyval, delete "id" (delete "content" c)) <$> chunks)
      = Ok rs.
Proof.
  induction 1 as [|c cs (d & sid & idx & text & Hc) _ (docs & rs & Hi & Hd & Hr)].
  - by exists [], [].
  - pose proof (indexed_entry_valid _ (chunk_metadata_indexed _ _ _ _ _ [] Hc)) as Hv.
    apply chunk_dict_lookup in Hc
      as (doc_id & id & filename & _ & _ & _ & Hid & Hcontent & _).
    exists (VStr text :: docs). eexists.
    unfold chunk_ids in *. cbn [omap list_omap]. rewrite Hid.
    rewrite !fmap_cons. cbn [sequence zip_records].
    unfold getitem at 1 3. rewrite Hid, Hcontent, Hi, Hd. cbn [obind as_str].
    simpl in Hv. rewrite Hv, Hr. cbn [obind]. done.
Qed.

(** [add_chunks] on prepared chunks against a reachable store: the whole
    batch is written, or it is refused for an id that occurs twice. *)
Lemma add_chunks_prepared (m : gmap (list Z) entry) (w : World)
    (c : gmap string pyval) (cs : list (gmap string pyval)) :
  serving m w →
  Forall (λ c, ∃ d sid idx text, chunk_dict d sid idx text = Ok c) (c :: cs) →
  ∃ w1, add_chunks (c :: cs) w
        = (if bool_decide (NoDup (chunk_ids (c :: cs))) then Ok tt
           else Raise DuplicateIDError, w1)
        ∧ (¬ NoDup (chunk_ids (c :: cs)) → stored w1 = Some m).
Proof.
  intros (w1 & Hready & Hf & [col Hcol] & Hm)%ensure_ready_serving Hshape.
  destruct (shaped_records _ Hshape) as (docs & rs & Hi & Hd & Hr).
  unfold add_chunks. cbv beta iota zeta. unfold bind, get, lift.
  rewrite Hready, Hcol. unfold assert_not_None, ret. cbv beta iota.
  rewrite Hi, Hd. cbv beta iota.
  unfold collection_upsert, the_collection, bind, get, lift, modify, ret, raise.
  rewrite external_call_quiet by done. cbv beta iota. rewrite Hm. cbv beta iota.
  unfold records. rewrite sequence_strings. cbn [obind].
  case_bool_decide as Hdup.
  - rewrite Hr. eexists. split; [reflexivity|]. by intros [].
  - eexists. split; [reflexivity|done].
Qed.

Section Indexing.

Context (split_text : list Z → list (list Z)).


(** An index call that returns never removes an entry: the collection has
    at least the entries it had and at most one more per chunk reported;
    with no chunk to write the world is left as it was. *)
Theorem indexing_only_adds (m : gmap (list Z) entry) (w w1 : World)
    (docs : list DocumentChunk.t) (r : IndexResponse) :
  serving m w →
  index_documents split_text docs w = (Ok r, w1) →
  (indexed r = 0%nat → w1 = w)
  ∧ (indexed r ≠ 0%nat →
     ∃ m1, stored w1 = Some m1
           ∧ (size m ≤ size m1 ≤ size m + indexed r)%nat
           ∧ ∀ id, is_Some (m !! id) → is_Some (m1 !! id)).
Proof.
  intros (w0 & Hready & _ & _ & Hm)%ensure_ready_serving.
  unfold index_documents, or_500, try_except, bind, lift, ret.
  destruct (prepare_chunks split_text (Model <$> docs)) as [[|c cs]|];
    cbv beta iota; [| |done].
  - intros [= <- <-]. by split.
  - pose proof (add_chunks_effect c cs w) as H.
    destruct (add_chunks (c :: cs) w) as [[[]|e] w'] eqn:Hadd; [|done].
    intros [= <- <-]. split; [done|]. intros _.
    destruct H as (m0 & rs & ids' & docs' & Hm0 & _ & _ & Hrs & Hst & _).
    rewrite Hready in Hm0. simpl in Hm0. assert (m0 = m) as -> by congruence.
    apply records_metadata in Hrs as [Hlen _]. rewrite length_fmap in Hlen.
    exists (write_all rs m). split; [done|]. split.
    + pose proof (write_all_size rs m). simpl in *. lia.
    + intros id. apply write_all_keeps_ids.
Qed.

End Indexing.


Lemma indexing_only_adds_witness :
  let m := default ∅ (stored indexed_world) in
  let w1 := (index_documents one_piece (drop 1 colliding_sections) indexed_world).2 in
  size m = 2%nat
  ∧ ∃ m1, stored w1 = Some m1
          ∧ (size m ≤ size m1 ≤ size m + 1)%nat
          ∧ ∀ id, is_Some (m !! id) → is_Some (m1 !! id).
Proof.
  intros m w1. split; [computed|].
  destruct (indexing_only_adds one_piece m indexed_world w1
              (drop 1 colliding_sections) (MkIndexResponse 1)) as [_ H].
  - split; [computed|]. right.
    split; [exists PersistentClientHandle; computed|].
    split; [exists (CollectionHandle settings.collection_name); computed|].
    computed.
  - computed.
  - apply H. discriminate.
Defined.

(** ** Properties kept by every call *)

Lemma keeps_ret {A} P (a : A) : keeps P (ret a).
Proof. by intros w. Qed.

Lemma keeps_raise {A} P (e : exn) : keeps P (@raise A e).
Proof. by intros w. Qed.

Lemma keeps_lift {A} P (o : outcome A) : keeps P (lift o).
Proof. by intros w. Qed.

Lemma keeps_get {A} P (f : World → A) : keeps P (get f).
Proof. by intros w. Qed.

Lemma keeps_bind {A B} P (m : M A) (k : A → M B) :
  keeps P m → (∀ a, keeps P (k a)) → keeps P (bind m k).
Proof.
  intros Hm Hk w Hw. unfold bind. specialize (Hm w Hw).
  destruct (m w) as [[a|e] w1]; [by apply Hk|done].
Qed.

Lemma keeps_try_except {A} P (body : M A) (handler : exn → M A) :
  keeps P body → (∀ e, keeps P (handler e)) → keeps P (try_except body handler).
Proof.
  intros Hb Hh w Hw. unfold try_except. specialize (Hb w Hw).
  destruct (body w) as [[a|e] w1]; [done|by apply Hh].
Qed.

Lemma keeps_assert {A} P (x : option A) : keeps P (assert_not_None x).
Proof. destruct x; [apply keeps_ret|apply keeps_raise]. Qed.

Lemma keeps_modify P (f : World → World) :
  (∀ w, P w → P (f w)) → keeps P (modify f).
Proof. intros Hf w Hw. by apply Hf. Qed.

Lemma indexed_store_same (w w' : World) :
  stored w' = stored w → indexed_store w → indexed_store w'.
Proof. unfold indexed_store. by intros ->. Qed.

Lemma indexed_store_empty (w : World) :
  stored w = None ∨ stored w = Some ∅ → indexed_store w.
Proof.
  intros [H|H] m; rewrite H; [done|]. intros [= <-]. apply map_Forall_empty.
Qed.

Lemma keeps_external_call : keeps indexed_store external_call.
Proof.
  intros w. apply indexed_store_same. apply external_call_handles.
Qed.

Ltac keeps_step :=
  first
    [ apply keeps_ret | apply keeps_raise | apply keeps_lift | apply keeps_get
    | apply keeps_assert | apply keeps_external_call
    | match goal with
      | |- keeps _ (match ?x with _ => _ end) => destruct x
      end
    | apply keeps_bind; [|intros ?]
    | apply keeps_try_except; [|intros ?]
    | apply keeps_modify; intros ? ?;
      first [ eapply indexed_store_same; [|eassumption]; reflexivity
            | apply indexed_store_empty; simpl; auto ] ].

Lemma keeps_ensure_ready : keeps indexed_store _ensure_ready.
Proof.
  unfold _ensure_ready, PersistentClient, SentenceTransformerEmbeddingFunction,
    get_or_create_collection.
  repeat keeps_step.
Qed.

Lemma keeps_collection_count : keeps indexed_store collection_count.
Proof. unfold collection_count, the_collection. repeat keeps_step. Qed.

Lemma keeps_count : keeps indexed_store count.
Proof.
  unfold count.
  repeat first [apply keeps_ensure_ready | apply keeps_collection_count | keeps_step].
Qed.

Lemma keeps_unique_doc_count : keeps indexed_store unique_doc_count.
Proof.
  unfold unique_doc_count, collection_get_metadatas, the_collection.
  repeat first [apply keeps_ensure_ready | apply keeps_collection_count | keeps_step].
Qed.

Lemma keeps_clear : keeps indexed_store clear.
Proof.
  unfold clear, delete_collection, the_collection.
  repeat first [apply keeps_ensure_ready | keeps_step].
Qed.

Lemma keeps_is_ready : keeps indexed_store is_ready.
Proof. unfold is_ready. repeat first [apply keeps_ensure_ready | keeps_step]. Qed.

Section Kept.

Context (distance : list Z → list Z → Q) (split_text : list Z → list (list Z))
  (float_of_str : list Z → option Q).

Lemma keeps_search q n : keeps indexed_store (search distance q n).
Proof.
  unfold search, collection_query, the_collection.
  repeat first [apply keeps_ensure_ready | apply keeps_collection_count | keeps_step].
Qed.

Lemma keeps_index_documents docs :
  keeps indexed_store (index_documents split_text docs).
Proof.
  intros w Hw. unfold index_documents, or_500, try_except, bind, lift, ret, raise.
  destruct (prepare_chunks split_text (Model <$> docs)) as [[|c cs]|] eqn:Hprep;
    cbv beta iota; [done| |done].
  pose proof (add_chunks_effect c cs w) as H.
  pose proof (keeps_ensure_ready w Hw) as Hw0.
  destruct (add_chunks (c :: cs) w) as [[[]|e] w'];
    [|destruct H as (Hst & _); by apply (indexed_store_same _ _ Hst)].
  destruct H as (m0 & rs & ids' & docs' & Hm0 & _ & _ & Hrs & Hst & _).
  intros m. simpl. rewrite Hst. intros [= <-].
  apply write_all_Forall; [by apply Hw0|].
  apply records_metadata in Hrs as [_ Hrs].
  eapply Forall_impl; [done|]. intros [id [doc meta]] Hmeta.
  cbn [fst snd metadata] in *.
  apply list_elem_of_fmap in Hmeta as (c' & -> & Hc').
  apply prepared_chunk_shape in Hprep.
  rewrite Forall_forall in Hprep.
  destruct (Hprep c' Hc') as (d & sid & idx & text & Hshape).
  by eapply chunk_metadata_indexed.
Qed.

(** Whatever the routes are asked and whatever the store does, a store that
    holds only records written by [index_documents] keeps holding only
    such records: string metadata with a document id and a file name. *)
Theorem routes_keep_the_store_indexed (calls : list call) (w : World) :
  Forall route_call calls → indexed_store w →
  indexed_store (after_all distance split_text float_of_str calls w).
Proof.
  intros Hcalls. revert w. induction Hcalls as [|c calls Hc _ IH]; intros w Hw; [done|].
  simpl. apply IH. destruct c; try done; simpl; revert Hw.
  - apply keeps_index_documents.
  - unfold search_documents, or_500.
    repeat first [apply keeps_search | keeps_step].
  - unfold clear_documents, or_500.
    repeat first [apply keeps_clear | keeps_step].
  - unfold get_stats, or_500.
    repeat first [apply keeps_unique_doc_count | apply keeps_count | keeps_step].
  - unfold health_check.
    repeat first [apply keeps_is_ready | keeps_step].
Qed.

End Kept.

Lemma routes_keep_the_store_indexed_witness :
  indexed_store
    (after_all same_text_distance one_piece whole_number
       [IndexDocuments two_sections; GetStats;
        SearchDocuments (MkSearchRequest (py "q") 3); HealthCheck]
       fresh_world).
Proof.
  apply routes_keep_the_store_indexed.
  - repeat constructor.
  - apply indexed_store_empty. by left.
Defined.

(** ** Searching a store filled by [index_documents] *)

Lemma row_lookup (doc : list Z) (meta : gmap string pyval) (d : Q) (k : string) :
  result_row doc meta d !! k
  = match meta !! k with
    | Some v => Some v
    | None => (<["content" := VStr doc]>
                 (<["score" := VFloat (score_of_distance d)]> ∅)
               : gmap string pyval) !! k
    end.
Proof.
  unfold result_row. rewrite lookup_union. by destruct (meta !! k), (_ !! k).
Qed.

Lemma to_search_result_of_indexed (float_of_str : list Z → option Q)
    (e : entry) (d : Q) :
  indexed_entry e →
  ∃ r, to_search_result float_of_str (result_row (document e) (metadata e) d) = Ok r
       ∧ SearchResult.content r = document e
       ∧ SearchResult.score r = score_of_distance d.
Proof.
  intros (Hall & [v1 H1] & [v2 H2] & Hc & Hs).
  destruct (Hall _ _ H1) as [doc_id ->]. destruct (Hall _ _ H2) as [filename ->].
  destruct (metadata e !! "section_id") as [v|] eqn:Hsid;
    [destruct (Hall _ _ Hsid) as [sid ->]|];
  (destruct (metadata e !! "heading") as [v|] eqn:Hh;
    [destruct (Hall _ _ Hh) as [[|h hs] ->]|]);
  (destruct (metadata e !! "speaker") as [v|] eqn:Hsp;
    [destruct (Hall _ _ Hsp) as [speaker ->]|]);
  (destruct (metadata e !! "tags") as [v|] eqn:Ht;
    [destruct (Hall _ _ Ht) as [tags ->]|]);
  unfold to_search_result, getitem;
  rewrite !row_lookup, ?H1, ?H2, ?Hc, ?Hs, ?Hsid, ?Hh, ?Hsp, ?Ht;
  eexists; (split; [reflexivity|split; reflexivity]).
Qed.

Lemma sequence_of_good {A B} (P : B → Prop) (f : A → outcome B) (l : list A) :
  Forall (λ x, ∃ b, f x = Ok b ∧ P b) l →
  ∃ out, sequence (f <$> l) = Ok out ∧ length out = length l ∧ Forall P out.
Proof.
  induction 1 as [|x l (b & Hb & HP) _ (out & Hout & Hlen & Hall)].
  - by exists [].
  - exists (b :: out). rewrite fmap_cons. cbn [sequence]. rewrite Hb, Hout.
    split; [done|]. split; [simpl; by rewrite Hlen|by constructor].
Qed.

Section SearchIndexed.

Context (distance : list Z → list Z → Q) (float_of_str : list Z → option Q).

(** While the service is not yet initialised, or holds its client and its
    collection handle, with no store fault pending and a collection that
    holds only records written by [index_documents], a search with a limit
    of at least one answers: it echoes the query, returns as many results
    as the limit and the collection size allow, and every score lies in
    [0, 1] when the distances lie in [0, 2].  (Once [clear] has returned,
    or initialisation has failed with the client set, the handle is missing
    and the search answers with status 500.) *)
Theorem search_documents_on_indexed_store
    (m : gmap (list Z) entry) (w : World) (request : SearchRequest) :
  serving m w →
  map_Forall (λ _ e, indexed_entry e) m →
  1 ≤ top_k request →
  (∀ doc, 0 <= distance (query request) doc <= 2)%Q →
  ∃ response w',
    search_documents distance float_of_str request w = (Ok response, w')
    ∧ response_query response = query request
    ∧ length (results response)
      = Z.to_nat (top_k request `min` Z.of_nat (size m))
    ∧ Forall (λ r, (0 <= SearchResult.score r <= 1)%Q) (results response).
Proof.
  intros Hw Hm Hk Hd.
  destruct (search_serving distance m (query request) (top_k request) w Hw) as [w1 H].
  unfold search_documents, or_500, try_except, bind, lift, ret. rewrite H. clear H.
  destruct (decide (size m = 0%nat)) as [Hz|Hnz].
  - exists (MkSearchResponse [] (query request)), w1. simpl.
    split; [reflexivity|]. split; [reflexivity|]. split; [|constructor].
    rewrite Hz. lia.
  - rewrite decide_True by done. cbv beta iota.
    set (found := neighbours distance (query request)
                    (Z.to_nat (top_k request `min` Z.of_nat (size m))) m).
    destruct (sequence_of_good (λ r, (0 <= SearchResult.score r <= 1)%Q)
                (to_search_result float_of_str)
                ((λ r : entry * Q, result_row (document r.1) (metadata r.1) r.2)
                   <$> found))
      as (out & Hout & Hlen & Hall).
    { apply Forall_fmap. eapply Forall_impl; [apply neighbours_entries|].
      intros [e d] [[id Hid] Hdist]. simpl in *.
      destruct (to_search_result_of_indexed float_of_str e d) as (r & Hr & _ & Hscore);
        [by apply (Hm id)|].
      exists r. split; [done|]. rewrite Hscore. apply score_bounds.
      rewrite Hdist. apply Hd. }
    rewrite Hout. cbv beta iota. eexists _, w1. split; [done|]. simpl.
    split; [done|]. split; [|done].
    rewrite Hlen, length_fmap. unfold found. rewrite neighbours_length. lia.
Qed.

(** The limit is not checked by the route: on a collection that holds
    entries, a limit of zero or below reaches the store unchanged, the store
    rejects it, and the route answers with status 500. *)
Theorem search_documents_rejects_bad_limit
    (m : gmap (list Z) entry) (w : World) (request : SearchRequest) :
  serving m w → (0 < size m)%nat → top_k request ≤ 0 →
  ∃ w', search_documents distance float_of_str request w
        = (Raise (HTTPException 500 (InvalidNResults (top_k request))), w').
Proof.
  intros Hw Hm Hk.
  destruct (search_serving distance m (query request) (top_k request) w Hw) as [w1 H].
  exists w1. unfold search_documents, or_500, try_except, bind, lift, ret, raise.
  rewrite H. rewrite decide_False, decide_False by lia.
  by rewrite Z.min_l by lia.
Qed.

End SearchIndexed.

Lemma search_documents_on_indexed_store_witness :
  ∃ response w',
    search_documents same_text_distance whole_number (MkSearchRequest (py "other text") 5)
      indexed_world = (Ok response, w')
    ∧ response_query response = py "other text"
    ∧ length (results response) = 2%nat
    ∧ Forall (λ r, (0 <= SearchResult.score r <= 1)%Q) (results response).
Proof.
  assert (Hi : indexed_store indexed_world).
  { assert (indexed_world
            = (index_documents one_piece two_sections fresh_world).2) as -> by computed.
    apply keeps_index_documents, indexed_store_empty. by left. }
  destruct (search_documents_on_indexed_store same_text_distance whole_number
              (default ∅ (stored indexed_world)) indexed_world
              (MkSearchRequest (py "other text") 5))
    as (response & w' & H & Hq & Hlen & Hall).
  - split; [computed|]. right.
    split; [exists PersistentClientHandle; computed|].
    split; [exists (CollectionHandle settings.collection_name); computed|].
    computed.
  - apply Hi. computed.
  - simpl. lia.
  - intros doc. unfold same_text_distance. simpl. by case_bool_decide.
  - exists response, w'. split; [exact H|]. split; [exact Hq|]. split; [|exact Hall].
    rewrite Hlen. computed.
Defined.

Lemma search_documents_rejects_bad_limit_witness :
  ∃ w', search_documents same_text_distance whole_number
          (MkSearchRequest (py "q") 0) indexed_world
        = (Raise (HTTPException 500 (InvalidNResults 0)), w').
Proof.
  apply (search_documents_rejects_bad_limit same_text_distance whole_number
           (default ∅ (stored indexed_world)) indexed_world
           (MkSearchRequest (py "q") 0)).
  - split; [computed|]. right.
    split; [exists PersistentClientHandle; computed|].
    split; [exists (CollectionHandle settings.collection_name); computed|].
    computed.
  - apply Nat.ltb_lt. computed.
  - simpl. lia.
Defined.
